(** * Request validation and centralized error handling (howardmann/validation)

    A shallow embedding of the validator factory, the two validation
    middlewares, the centralized error handler, the flash-to-view bridge and
    the signup route, together with the fragment of the Joi rule engine that
    the repository's schemas are written in. *)

From Stdlib Require Import Ascii QArith.
From stdpp Require Import gmap strings list fin_maps pretty.

Local Open Scope string_scope.
Local Open Scope list_scope.

(** ** JavaScript values *)

(** A value that can sit under a key of [req.body].  Numbers are the finite
    JavaScript numbers, read as rationals.  A key that is absent from the
    object reads as [undefined], which is the [None] of a map lookup. *)
#[warnings="-register-all"]
Inductive value : Type :=
  | VNull
  | VBool (b : bool)
  | VNum (q : Q)
  | VStr (s : string)
  | VArr (items : list value)
  | VObj (fields : list (string * value)).

(** [req.body]: a JavaScript object used as a map from field name to value. *)
Abbreviation Payload := (gmap string value).

(** One entry of [err.details] (the spec calls it ValidationFailure; Joi's
    field for the kind of constraint is [type]). *)
Record ValidationFailure := {
  message : string;
  path : list string;
  type : string
}.

(** A JavaScript error object as the handlers read it: every property they
    touch may be [undefined]. *)
Record ErrorObj := {
  err_name : string;
  err_message : option string;
  err_statusCode : option Z;
  err_details : option (list ValidationFailure)
}.

(** A settled promise. *)
Inductive Promise (A : Type) : Type :=
  | Fulfilled (a : A)
  | Rejected (e : ErrorObj).
Arguments Fulfilled {A} a.
Arguments Rejected {A} e.

(** What the host runtime supplies to the rule engine: string to number
    conversion ([None] when the result is NaN or not finite), number
    printing, and the e-mail address test. *)
Class JsRuntime := {
  parseFloat : string → option Q;
  numberToString : Q → string;
  isEmail : string → bool
}.

(** The validation engine seen as a black box: [validate(payload, schema,
    options)] gives a settled promise. *)
Record ValidateOptions := { abortEarly : bool }.

Class ValidationEngine (Schema : Type) := {
  engine_validate : Payload → Schema → ValidateOptions → Promise Payload
}.

(** ** The Joi fragment used by the schemas

    The repository calls the rule engine and does not contain it.  The
    module below is the engine restricted to what the repository's schemas
    are built from: objects with keys, strings with [min], [email] and
    [alphanum], numbers with [min], and [required]. *)

Module Joi.

(** Joi's own default for the options [createValidator] overrides. *)
Definition defaults : ValidateOptions := {| abortEarly := true |}.

Inductive StringRule :=
  | SMin (limit : nat)
  | SEmail
  | SAlphanum.

Inductive NumberRule :=
  | NMin (limit : Q).

Record StringSchema := { s_required : bool; s_tests : list StringRule }.
Record NumberSchema := { n_required : bool; n_tests : list NumberRule }.

Inductive AnySchema :=
  | AString (s : StringSchema)
  | ANumber (n : NumberSchema).

(** [Joi.object().keys({...})]: the children in the order of the object
    literal, whose keys are distinct as in every JavaScript object. *)
Record ObjectSchema := {
  children : list (string * AnySchema);
  children_distinct : NoDup children.*1
}.

Definition object_keys (cs : list (string * AnySchema))
    (distinct : bool_decide (NoDup cs.*1)) : ObjectSchema :=
  {| children := cs; children_distinct := bool_decide_unpack _ distinct |}.

Definition is_required (s : AnySchema) : bool :=
  match s with
  | AString s => s_required s
  | ANumber n => n_required n
  end.

(** *** Error items *)

Definition dquote : string := String "034"%char EmptyString.
Definition label (key : string) : string := dquote ++ key ++ dquote.

Definition item (key text kind : string) : ValidationFailure :=
  {| message := label key ++ text; path := [key]; type := kind |}.

(** *** Rules *)

Definition is_alphanum_char (c : ascii) : bool :=
  let n := nat_of_ascii c in
  (((48 <=? n) && (n <=? 57)) || ((65 <=? n) && (n <=? 90))
   || ((97 <=? n) && (n <=? 122)))%nat.

(** /^[a-zA-Z0-9]+$/ *)
Definition matches_alphanum (s : string) : bool :=
  match String.list_ascii_of_string s with
  | [] => false
  | cs => forallb is_alphanum_char cs
  end.

Section Engine.
Context {runtime : JsRuntime}.

Definition string_rule (key : string) (r : StringRule) (s : string)
    : option ValidationFailure :=
  match r with
  | SMin limit =>
      if (limit <=? String.length s)%nat then None
      else Some (item key (" length must be at least " ++ pretty limit
                           ++ " characters long") "string.min")
  | SEmail =>
      if isEmail s then None
      else Some (item key " must be a valid email" "string.email")
  | SAlphanum =>
      if matches_alphanum s then None
      else Some (item key " must only contain alpha-numeric characters"
                   "string.alphanum")
  end.

Definition number_rule (key : string) (r : NumberRule) (q : Q)
    : option ValidationFailure :=
  match r with
  | NMin limit =>
      if Qle_bool limit q then None
      else Some (item key (" must be larger than or equal to "
                           ++ numberToString limit) "number.min")
  end.

(** The loop over [_tests]: every failing rule adds an item, and with
    [abortEarly] the first one ends the loop. *)
Fixpoint run_tests {R V : Type} (rule : R → V → option ValidationFailure)
    (abort : bool) (tests : list R) (v : V) : list ValidationFailure :=
  match tests with
  | [] => []
  | r :: rest =>
      match rule r v with
      | Some e => if abort then [e] else e :: run_tests rule abort rest v
      | None => run_tests rule abort rest v
      end
  end.

(** Validation of one string: the empty string is among the invalid
    values, and is reported before the type check and the rules. *)
Definition validate_string (abort : bool) (key : string)
    (s : StringSchema) (v : value)
    : list ValidationFailure * option value :=
  let invalid :=
    match v with
    | VStr "" => [item key " is not allowed to be empty" "any.empty"]
    | _ => []
    end in
  match invalid, abort with
  | _ :: _, true => (invalid, Some v)
  | _, _ =>
      match v with
      | VStr str =>
          (invalid ++ run_tests (string_rule key) abort (s_tests s) str,
           Some v)
      | _ => (invalid ++ [item key " must be a string" "string.base"],
              Some v)
      end
  end.

(** Conversion of the number type: numbers stay, strings are parsed. *)
Definition to_number (v : value) : option Q :=
  match v with
  | VNum q => Some q
  | VStr s => parseFloat s
  | _ => None
  end.

Definition validate_number (abort : bool) (key : string)
    (n : NumberSchema) (v : value)
    : list ValidationFailure * option value :=
  match to_number v with
  | Some q => (run_tests (number_rule key) abort (n_tests n) q,
               Some (VNum q))
  | None => ([item key " must be a number" "number.base"], Some v)
  end.

(** Validation of the value under one key: errors, and the value the
    key gets when there are none. *)
Definition validate_any (abort : bool) (key : string) (s : AnySchema)
    (v : option value) : list ValidationFailure * option value :=
  match v with
  | None =>
      if is_required s
      then ([item key " is required" "any.required"], None)
      else ([], None)
  | Some v =>
      match s with
      | AString s => validate_string abort key s v
      | ANumber n => validate_number abort key n v
      end
  end.

(** A field violates its schema when validating its value alone reports
    something. *)
Definition fails (key : string) (schema : AnySchema) (v : option value)
    : Prop :=
  (validate_any false key schema v).1 ≠ [].

(** Errors of an object: a failing child with its reasons, or a key the
    schema does not know. *)
Inductive ObjectError :=
  | ChildError (key : string) (reason : list ValidationFailure)
  | UnknownKey (key : string).

(** A failing child is recorded with at least one reason. *)
Definition has_reason (e : ObjectError) : Prop :=
  match e with
  | ChildError _ reason => reason ≠ []
  | UnknownKey _ => True
  end.

(** [target[key] = result.value], which is skipped when the value is
    [undefined]. *)
Definition settle (key : string) (r : option value) (target : Payload)
    : Payload :=
  match r with
  | Some v => <[key := v]> target
  | None => target
  end.

(** The loop over the children.  [true] in the last component means the
    loop was left at the first failing child. *)
Fixpoint validate_children (abort : bool)
    (cs : list (string * AnySchema)) (target : Payload)
    : list ObjectError * Payload * bool :=
  match cs with
  | [] => ([], target, false)
  | (key, schema) :: rest =>
      match validate_any abort key schema (target !! key) with
      | ([], r) => validate_children abort rest (settle key r target)
      | (reason, _) =>
          if abort then ([ChildError key reason], target, true)
          else
            let '(errors, target', stop) :=
              validate_children abort rest target in
            (ChildError key reason :: errors, target', stop)
      end
  end.

(** Keys of the payload that no child of the schema names. *)
Definition unprocessed (cs : list (string * AnySchema))
    (payload : Payload) : list string :=
  filter (λ k, k ∉ cs.*1) (map_to_list payload).*1.

Definition validate_object (abort : bool) (schema : ObjectSchema)
    (payload : Payload) : list ObjectError * Payload :=
  let '(errors, target, stop) :=
    validate_children abort (children schema) payload in
  if stop then (errors, target)
  else (errors ++ (UnknownKey <$> unprocessed (children schema) payload),
        target).

(** *** From errors to the rejection *)

Definition details_of (errors : list ObjectError)
    : list ValidationFailure :=
  errors ≫= λ e,
    match e with
    | ChildError _ reason => reason
    | UnknownKey key => [item key " is not allowed" "object.allowUnknown"]
    end.

Fixpoint join (sep : string) (parts : list string) : string :=
  match parts with
  | [] => ""
  | [p] => p
  | p :: rest => p ++ sep ++ join sep rest
  end.

Definition error_text (e : ObjectError) : string :=
  match e with
  | ChildError key reason =>
      "child " ++ label key ++ " fails because ["
      ++ join ", " (message <$> reason) ++ "]"
  | UnknownKey key => label key ++ " is not allowed"
  end.

Definition ValidationError (errors : list ObjectError) : ErrorObj :=
  {| err_name := "ValidationError";
     err_message := Some (join ". " (error_text <$> errors));
     err_statusCode := None;
     err_details := Some (details_of errors) |}.

(** Modelled from the spec: the rule engine (the Joi library) is called by
    [createValidator] and its code is not under src/.  As the spec has it,
    [Joi.validate(payload, schema, options)] checks the payload against the
    rule of every field of the schema and gives either the normalized
    payload (the same fields, converted to the declared types) or an error
    whose [details] list the failures with their message, path and kind;
    it stops at the first failure unless [abortEarly: false] is asked for. *)
Definition validate (payload : Payload) (schema : ObjectSchema)
    (options : ValidateOptions) : Promise Payload :=
  match validate_object (abortEarly options) schema payload with
  | ([], target) => Fulfilled target
  | (errors, _) => Rejected (ValidationError errors)
  end.

End Engine.

(** *** Schema builders *)

Definition string : StringSchema := {| s_required := false; s_tests := [] |}.
Definition number : NumberSchema := {| n_required := false; n_tests := [] |}.

Definition string_required (s : StringSchema) : StringSchema :=
  {| s_required := true; s_tests := s_tests s |}.
Definition string_min (limit : nat) (s : StringSchema) : StringSchema :=
  {| s_required := s_required s; s_tests := s_tests s ++ [SMin limit] |}.
Definition email (s : StringSchema) : StringSchema :=
  {| s_required := s_required s; s_tests := s_tests s ++ [SEmail] |}.
Definition alphanum (s : StringSchema) : StringSchema :=
  {| s_required := s_required s; s_tests := s_tests s ++ [SAlphanum] |}.

Definition number_required (n : NumberSchema) : NumberSchema :=
  {| n_required := true; n_tests := n_tests n |}.
Definition number_min (limit : Q) (n : NumberSchema) : NumberSchema :=
  {| n_required := n_required n; n_tests := n_tests n ++ [NMin limit] |}.

End Joi.

#[export] Instance Joi_engine {runtime : JsRuntime} : ValidationEngine Joi.ObjectSchema :=
  {| engine_validate := Joi.validate |}.

(** ** The validator factory (validation/createValidator.js) *)

Definition createValidator {Schema : Type} {engine : ValidationEngine Schema}
    (schema : Schema) : Payload → Promise Payload :=
  λ payload, engine_validate payload schema {| abortEarly := false |}.

(** ** Schemas (validation/schemas/productSchema.js, userSchema.js) *)

Definition priceSchema : Joi.NumberSchema := Joi.number_min (1 # 100) Joi.number.

Definition createProductSchema : Joi.ObjectSchema :=
  Joi.object_keys
    [("description", Joi.AString (Joi.string_required Joi.string));
     ("price", Joi.ANumber (Joi.number_required priceSchema))] I.

Definition createUserSchema : Joi.ObjectSchema :=
  Joi.object_keys
    [("email", Joi.AString (Joi.email Joi.string));
     ("name", Joi.AString Joi.string);
     ("password", Joi.AString (Joi.alphanum (Joi.string_min 7 Joi.string)))] I.

(** ** A runtime to execute examples with

    Decimal numerals ([-12.5]) for numbers, and a crude address test; the
    theorems below hold for every runtime. *)

Module Decimal.

Definition digit (c : ascii) : option Z :=
  let n := nat_of_ascii c in
  if ((48 <=? n) && (n <=? 57))%nat then Some (Z.of_nat n - 48)%Z else None.

Fixpoint digits (acc : Z) (cs : list ascii) : option Z :=
  match cs with
  | [] => Some acc
  | c :: rest =>
      match digit c with
      | Some d => digits (10 * acc + d)%Z rest
      | None => None
      end
  end.

Fixpoint split_dot (cs : list ascii) : list ascii * option (list ascii) :=
  match cs with
  | [] => ([], None)
  | c :: rest =>
      if Ascii.eqb c "."%char then ([], Some rest)
      else let '(a, b) := split_dot rest in (c :: a, b)
  end.

Definition unsigned (cs : list ascii) : option Q :=
  match split_dot cs with
  | ([], _) => None
  | (int, None) => (λ n, inject_Z n) <$> digits 0 int
  | (int, Some frac) =>
      match digits 0 int, digits 0 frac with
      | Some i, Some f =>
          Some (Qplus (inject_Z i)
                  (Qmake f (Pos.pow 10 (Pos.of_nat (length frac)))))
      | _, _ => None
      end
  end.

Definition parse (s : string) : option Q :=
  match String.list_ascii_of_string s with
  | "-"%char :: rest => Qopp <$> unsigned rest
  | cs => unsigned cs
  end.

Fixpoint fraction (fuel : nat) (r d : Z) : string :=
  match fuel with
  | O => ""
  | S fuel =>
      if (r =? 0)%Z then ""
      else pretty (10 * r / d)%Z ++ fraction fuel (10 * r mod d)%Z d
  end.

Definition print (q : Q) : string :=
  let n := Qnum q in
  let d := Z.pos (Qden q) in
  let r := (Z.abs n mod d)%Z in
  (if (n <? 0)%Z then "-" else "") ++ pretty (Z.abs n / d)%Z
  ++ (if (r =? 0)%Z then "" else "." ++ fraction 20 r d).

Fixpoint has_at (cs : list ascii) : bool :=
  match cs with
  | [] => false
  | c :: rest => (Ascii.eqb c "@"%char && negb (bool_decide (rest = [])))
                 || has_at rest
  end.

Definition address (s : string) : bool :=
  match String.list_ascii_of_string s with
  | [] => false
  | c :: rest => negb (Ascii.eqb c "@"%char) && has_at rest
  end.

Definition runtime : JsRuntime :=
  {| parseFloat := parse; numberToString := print; isEmail := address |}.

End Decimal.

(** ** The request pipeline

    One request is handled at a time, so the request, the response, the
    session and the console are one state threaded through the handlers. *)

(** What a handler sends to the client. *)
Inductive Action :=
  | Redirected (path : string)
  | SendJson (statusCode : option Z) (message : option string).

Inductive LogLine :=
  | LogText (text : option string)
  | LogList (lines : list string)
  | LogPayload (payload : Payload).

Record World := {
  req_body : Payload;
  (** [req.session.flash]: the queued messages of each category *)
  session_flash : gmap string (list string);
  (** [res.locals]: what the views can read *)
  res_locals : gmap string (list string);
  res_statusCode : option Z;
  (** responses, oldest first *)
  res_sent : list Action;
  console : list LogLine;
  (** error objects, which the error handler is passed by reference *)
  heap : gmap nat ErrorObj
}.

(** A handler body: it runs on the state and either completes or throws.
    For a promise chain the two outcomes are the state the last promise of
    the chain settles in. *)
Definition M (A : Type) : Type := World → Promise A * World.

#[export] Instance M_ret : MRet M := λ A a w, (Fulfilled a, w).
#[export] Instance M_bind : MBind M := λ A B f m w,
  match m w with
  | (Fulfilled a, w') => f a w'
  | (Rejected e, w') => (Rejected e, w')
  end.

Definition throw {A : Type} (e : ErrorObj) : M A := λ w, (Rejected e, w).

(** [promise.then(f)] *)
Definition promise_then {A B : Type} (p : M A) (f : A → M B) : M B := p ≫= f.

(** [promise.catch(g)] *)
Definition promise_catch {A : Type} (p : M A) (g : ErrorObj → M A) : M A :=
  λ w,
    match p w with
    | (Fulfilled a, w') => (Fulfilled a, w')
    | (Rejected e, w') => g e w'
    end.

(** The promise an asynchronous call hands back. *)
Definition await {A : Type} (p : Promise A) : M A := λ w, (p, w).

(** *** Primitive effects *)

Definition with_req_body (body : Payload) (w : World) : World :=
  {| req_body := body; session_flash := session_flash w;
     res_locals := res_locals w; res_statusCode := res_statusCode w;
     res_sent := res_sent w; console := console w; heap := heap w |}.

Definition with_session_flash (flash : gmap string (list string)) (w : World)
    : World :=
  {| req_body := req_body w; session_flash := flash;
     res_locals := res_locals w; res_statusCode := res_statusCode w;
     res_sent := res_sent w; console := console w; heap := heap w |}.

Definition with_res_locals (locals : gmap string (list string)) (w : World)
    : World :=
  {| req_body := req_body w; session_flash := session_flash w;
     res_locals := locals; res_statusCode := res_statusCode w;
     res_sent := res_sent w; console := console w; heap := heap w |}.

Definition with_res_statusCode (code : option Z) (w : World) : World :=
  {| req_body := req_body w; session_flash := session_flash w;
     res_locals := res_locals w; res_statusCode := code;
     res_sent := res_sent w; console := console w; heap := heap w |}.

Definition with_res_sent (sent : list Action) (w : World) : World :=
  {| req_body := req_body w; session_flash := session_flash w;
     res_locals := res_locals w; res_statusCode := res_statusCode w;
     res_sent := sent; console := console w; heap := heap w |}.

Definition with_console (lines : list LogLine) (w : World) : World :=
  {| req_body := req_body w; session_flash := session_flash w;
     res_locals := res_locals w; res_statusCode := res_statusCode w;
     res_sent := res_sent w; console := lines; heap := heap w |}.

Definition with_heap (objects : gmap nat ErrorObj) (w : World) : World :=
  {| req_body := req_body w; session_flash := session_flash w;
     res_locals := res_locals w; res_statusCode := res_statusCode w;
     res_sent := res_sent w; console := console w; heap := objects |}.

Definition modify (f : World → World) : M unit := λ w, (Fulfilled (), f w).

Definition get_req_body : M Payload := λ w, (Fulfilled (req_body w), w).

(** [req.body = body] *)
Definition set_req_body (body : Payload) : M unit :=
  modify (with_req_body body).

(** Modelled from the spec: the flash store of the session (connect-flash)
    is not under src/; the handlers use its two operations, push and drain.
    [req.flash(type, messages)] queues the messages behind those already
    waiting in the category. *)
Definition req_flash_push (type : string) (messages : list string) : M unit :=
  modify (λ w,
    with_session_flash
      (<[type := default [] (session_flash w !! type) ++ messages]>
         (session_flash w)) w).

(** Modelled from the spec: [req.flash(type)] drains the category, that is,
    gives its messages (none if there is no such category) and clears it. *)
Definition req_flash (type : string) : M (list string) := λ w,
  (Fulfilled (default [] (session_flash w !! type)),
   with_session_flash (delete type (session_flash w)) w).

(** [res.locals[name] = messages] *)
Definition set_res_locals (name : string) (messages : list string) : M unit :=
  modify (λ w, with_res_locals (<[name := messages]> (res_locals w)) w).

(** [res.status(code)] *)
Definition res_status (code : option Z) : M unit :=
  modify (with_res_statusCode code).

Definition respond (a : Action) : M unit :=
  modify (λ w, with_res_sent (res_sent w ++ [a]) w).

(** [res.redirect(path)] and [res.send({statusCode, message})] *)
Definition res_redirect (path : string) : M unit := respond (Redirected path).
Definition res_send (statusCode : option Z) (message : option string) : M unit :=
  respond (SendJson statusCode message).

(** [console.log], [console.error] *)
Definition console_log (line : LogLine) : M unit :=
  modify (λ w, with_console (console w ++ [line]) w).

(** The continuation [next] of the router: called with no error it runs the
    next handler, called with an error it runs the error handlers.  The
    router catches what those throw, so the call itself completes. *)
Definition Next : Type := option ErrorObj → World → World.

Definition call (next : Next) (err : option ErrorObj) : M unit := λ w,
  (Fulfilled (), next err w).

Definition Middleware : Type := Next → M unit.

(** ** API validation middleware (validation/middlewares/validateMiddleware.js) *)

Definition validateMiddleware {Schema : Type} {engine : ValidationEngine Schema}
    (schema : Schema) : Middleware := λ next,
  payload ← get_req_body;
  let validate := createValidator schema in
  promise_catch
    (promise_then (await (validate payload)) (λ validated,
       set_req_body validated;;
       call next None))
    (λ err, call next (Some err)).

(** ** Form validation middleware (validation/middlewares/validateForm.js) *)

Definition TypeError (text : string) : ErrorObj :=
  {| err_name := "TypeError"; err_message := Some text;
     err_statusCode := None; err_details := None |}.

(** [details.map(f)]: a method call on a property that may be [undefined]. *)
Definition array_map {A B : Type} (f : A → B) (array : option (list A))
    : M (list B) :=
  match array with
  | Some items => mret (f <$> items)
  | None => throw (TypeError "Cannot read property 'map' of undefined")
  end.

Definition validateForm {Schema : Type} {engine : ValidationEngine Schema}
    (schema : Schema) (redirectPath : string) : Middleware := λ next,
  payload ← get_req_body;
  let validate := createValidator schema in
  promise_catch
    (promise_then (await (validate payload)) (λ validated,
       set_req_body validated;;
       call next None))
    (λ err,
       errorMessages ← array_map message (err_details err);
       console_log (LogList errorMessages);;
       req_flash_push "validationFailure" errorMessages;;
       res_redirect redirectPath).

(** ** Centralized error handler (middlewares/handleErrors.js) *)

(** [!statusCode]: [undefined] and [0] are falsy. *)
Definition falsy (statusCode : option Z) : bool :=
  match statusCode with
  | None => true
  | Some c => (c =? 0)%Z
  end.

(** Reading the object behind a reference.  References handed out by the
    store always point into it; a dangling one has no JavaScript
    counterpart and stops the handler. *)
Definition deref (ref : nat) : M ErrorObj := λ w,
  match heap w !! ref with
  | Some e => (Fulfilled e, w)
  | None => (Rejected (TypeError "dangling reference"), w)
  end.

(** [err.statusCode = code], on the object itself. *)
Definition set_statusCode (code : Z) (e : ErrorObj) : ErrorObj :=
  {| err_name := err_name e; err_message := err_message e;
     err_statusCode := Some code; err_details := err_details e |}.

Definition assign_statusCode (ref : nat) (code : Z) : M unit :=
  modify (λ w, with_heap (alter (set_statusCode code) ref (heap w)) w).

Definition handleErrors (err : option nat) : Middleware := λ next,
  match err with
  | Some ref =>
      e ← deref ref;
      console_log (LogText (err_message e));;
      (if falsy (err_statusCode e) then assign_statusCode ref 500
       else mret ());;
      e ← deref ref;
      res_status (err_statusCode e);;
      res_send (err_statusCode e) (err_message e)
  | None => call next None
  end.

(** ** Flash-to-view bridge (middlewares/flashMessageInViews.js) *)

Definition flashMessageInViews : Middleware := λ next,
  messageSuccess ← req_flash "messageSuccess";
  set_res_locals "messageSuccess" messageSuccess;;
  messageFailure ← req_flash "messageFailure";
  set_res_locals "messageFailure" messageFailure;;
  validationFailure ← req_flash "validationFailure";
  set_res_locals "validationFailure" validationFailure;;
  call next None.

(** ** The signup route (routes/index.js) *)

(** The router runs a handler and forwards what it throws to [next]. *)
Definition dispatch (handler : Middleware) (next : Next) : World → World :=
  λ w,
    match handler next w with
    | (Fulfilled _, w') => w'
    | (Rejected e, w') => next (Some e) w'
    end.

Definition signup_created : Middleware := λ next,
  payload ← get_req_body;
  console_log (LogPayload payload);;
  req_flash_push "messageSuccess" ["woohoo"];;
  res_redirect "/signup".

(** [router.post('/signup', validateForm(createUserSchema, '/signup'), ...)] *)
Definition post_signup {runtime : JsRuntime} : Middleware := λ next,
  validateForm createUserSchema "/signup" (λ err,
    match err with
    | None => dispatch signup_created next
    | Some e => next (Some e)
    end).

(** ** Concrete requests, used to run the handlers *)

Module Examples.

(** An engine that fails with a plain error, which has no [details]. *)
Definition broken : ValidationEngine unit :=
  {| engine_validate := λ _ _ _,
       Rejected {| err_name := "Error"; err_message := Some "boom";
                   err_statusCode := None; err_details := None |} |}.

(** A continuation that leaves a trace of how it was called. *)
Definition traced : Next := λ err w,
  with_console
    (console w ++ [LogText (Some (match err with
                                  | None => "next()"
                                  | Some _ => "next(err)"
                                  end))]) w.

Definition request (body : list (string * value)) : World :=
  {| req_body := list_to_map body; session_flash := ∅; res_locals := ∅;
     res_statusCode := None; res_sent := []; console := []; heap := ∅ |}.

Definition red_book : list (string * value) :=
  [("description", VStr "red book"); ("price", VStr "12.5")].

Definition cheap_book : list (string * value) :=
  [("description", VStr "red book"); ("price", VNum (1 # 10000))].

Definition short_password : list (string * value) :=
  [("email", VStr "a@b.com"); ("name", VStr "A"); ("password", VStr "short")].

Definition bad_signup : list (string * value) :=
  [("email", VStr "nobody"); ("name", VStr "A"); ("password", VStr "sh!")].

Definition pending : World :=
  with_session_flash
    (list_to_map [("validationFailure", ["too short"; "not an email"]);
                  ("notice", ["kept"])])
    (request []).

Definition failed (statusCode : option Z) : World :=
  with_heap {[ 0%nat := {| err_name := "Error"; err_message := Some "boom";
                           err_statusCode := statusCode;
                           err_details := None |} ]} (request []).

End Examples.


(** ** The inline signup handler (routes/signUp.js) *)

Definition validateUser {runtime : JsRuntime} : Payload → Promise Payload :=
  createValidator createUserSchema.

Definition signup_create {runtime : JsRuntime} : Middleware := λ next,
  payload ← get_req_body;
  promise_catch
    (promise_then (await (validateUser payload)) (λ data,
       console_log (LogPayload data);;
       req_flash_push "messageSuccess" ["Success valid input"];;
       res_redirect "/signup"))
    (λ err,
       errorMessages ← array_map message (err_details err);
       console_log (LogList errorMessages);;
       req_flash_push "validationFailure" errorMessages;;
       res_redirect "/signup").

(** ** The application (server.js)

    [app.use(flashMessageInViews)] comes before [app.use(routes)], so a
    POST /signup goes through the bridge and then through the route.  The
    router starts the route and does not wait for the promise chain it
    leaves behind; [final] is what follows the routes (the error handlers
    and the 404 handler). *)

Definition started (handler : Middleware) (next : Next) : World → World :=
  λ w, (handler next w).2.

Definition app_post_signup {runtime : JsRuntime} : Middleware := λ final,
  flashMessageInViews (λ err,
    match err with
    | None => started post_signup final
    | Some e => final (Some e)
    end).

(** ** More concrete requests *)

Module Scenarios.

Definition good_signup : list (string * value) :=
  [("email", VStr "a@b.com"); ("name", VStr "A");
   ("password", VStr "longenough1")].

(** A session that still holds messages of an earlier request. *)
Definition stale (body : list (string * value)) : World :=
  with_session_flash
    (list_to_map [("validationFailure", ["old failure"]);
                  ("messageSuccess", ["old success"])])
    (Examples.request body).

Definition price_error : ErrorObj :=
  Joi.ValidationError
    [Joi.ChildError "price"
       [Joi.item "price" " must be larger than or equal to 0.01"
          "number.min"]].

(** The request of the cheap book, with its validation error in the store. *)
Definition rejected_book : World :=
  with_heap {[ 0%nat := price_error ]} (Examples.request Examples.cheap_book).

End Scenarios.
(** * Properties *)

(** ** Middlewares, for every validation engine *)

Section Middlewares.
Context {Schema : Type} {engine : ValidationEngine Schema}.

Lemma validate_then_fulfilled (schema : Schema) (next : Next) (w : World)
    (validated : Payload) :
  createValidator schema (req_body w) = Fulfilled validated →
  promise_then (await (createValidator schema (req_body w)))
    (λ validated, set_req_body validated;; call next None) w
  = (Fulfilled (), next None (with_req_body validated w)).
Proof. intros Hv. unfold promise_then, await, mbind, M_bind. by rewrite Hv. Qed.

Lemma validate_then_rejected (schema : Schema) (next : Next) (w : World)
    (err : ErrorObj) :
  createValidator schema (req_body w) = Rejected err →
  promise_then (await (createValidator schema (req_body w)))
    (λ validated, set_req_body validated;; call next None) w
  = (Rejected err, w).
Proof. intros Hv. unfold promise_then, await, mbind, M_bind. by rewrite Hv. Qed.

(** C2. The API validation middleware: when the body validates, [req.body]
    becomes the normalized payload and [next] is called with no error; when
    validation is rejected, [next] is called with that very error on the
    untouched state.  In both cases the state handed to [next] has the flash
    store and the responses it had on entry: no flash, no redirect. *)
Theorem validateMiddleware_continues (schema : Schema) (next : Next)
    (w : World) :
  (∀ validated,
     createValidator schema (req_body w) = Fulfilled validated →
     validateMiddleware schema next w
     = (Fulfilled (), next None (with_req_body validated w))
     ∧ req_body (with_req_body validated w) = validated
     ∧ session_flash (with_req_body validated w) = session_flash w
     ∧ res_sent (with_req_body validated w) = res_sent w)
  ∧ (∀ err,
       createValidator schema (req_body w) = Rejected err →
       validateMiddleware schema next w = (Fulfilled (), next (Some err) w)).
Proof.
  split.
  - intros validated Hv. split; [|done].
    unfold validateMiddleware, promise_catch, mbind at 1, M_bind at 1.
    simpl. by rewrite (validate_then_fulfilled _ _ _ _ Hv).
  - intros err Hv.
    unfold validateMiddleware, promise_catch, mbind at 1, M_bind at 1.
    simpl. by rewrite (validate_then_rejected _ _ _ _ Hv).
Qed.

(** The form middleware on a valid body: as the API middleware. *)
Lemma validateForm_fulfilled (schema : Schema) (redirectPath : string)
    (next : Next) (w : World) (validated : Payload) :
  createValidator schema (req_body w) = Fulfilled validated →
  validateForm schema redirectPath next w
  = (Fulfilled (), next None (with_req_body validated w)).
Proof.
  intros Hv.
  unfold validateForm, promise_catch, mbind at 1, M_bind at 1.
  simpl. by rewrite (validate_then_fulfilled _ _ _ _ Hv).
Qed.

(** The failure branch of the form middleware, run on a rejection. *)
Lemma validateForm_rejected (schema : Schema) (redirectPath : string)
    (next : Next) (w : World) (err : ErrorObj) :
  createValidator schema (req_body w) = Rejected err →
  validateForm schema redirectPath next w
  = (errorMessages ← array_map message (err_details err);
     console_log (LogList errorMessages);;
     req_flash_push "validationFailure" errorMessages;;
     res_redirect redirectPath) w.
Proof.
  intros Hv.
  unfold validateForm, promise_catch, mbind at 1, M_bind at 1.
  simpl. by rewrite (validate_then_rejected _ _ _ _ Hv).
Qed.

(** C3. The form validation middleware on an invalid body: the messages of
    the entries of [details], in their order, are queued in the flash store
    under "validationFailure" and the response is a redirect to
    [redirectPath]; nothing else of the request changes, and the outcome is
    the same whatever [next] is, so [next] (and with it the error handler)
    is not called.  If the category was empty, it holds exactly the
    messages. *)
Theorem validateForm_flashes_and_redirects (schema : Schema)
    (redirectPath : string) (next : Next) (w : World) (err : ErrorObj)
    (details : list ValidationFailure) :
  createValidator schema (req_body w) = Rejected err →
  err_details err = Some details →
  ∃ w',
    validateForm schema redirectPath next w = (Fulfilled (), w')
    ∧ session_flash w'
      = <["validationFailure" :=
            default [] (session_flash w !! "validationFailure")
            ++ (message <$> details)]> (session_flash w)
    ∧ (session_flash w !! "validationFailure" = None →
       session_flash w' !! "validationFailure" = Some (message <$> details))
    ∧ res_sent w' = res_sent w ++ [Redirected redirectPath]
    ∧ req_body w' = req_body w
    ∧ res_locals w' = res_locals w
    ∧ res_statusCode w' = res_statusCode w
    ∧ heap w' = heap w
    ∧ ∀ next', validateForm schema redirectPath next' w = (Fulfilled (), w').
Proof.
  intros Hv Hd. eexists. split.
  { rewrite (validateForm_rejected _ _ _ _ _ Hv), Hd. reflexivity. }
  simpl. repeat split.
  - intros Hnone. by rewrite Hnone, lookup_insert_eq.
  - intros next'. by rewrite (validateForm_rejected _ _ _ _ _ Hv), Hd.
Qed.

(** C9. The failure branch calls [err.details.map] whatever the rejection
    is.  With a [details] array the handler completes, having redirected;
    without one it throws a TypeError: the chain ends rejected and nothing
    was flashed or sent. *)
Theorem validateForm_needs_details (schema : Schema)
    (redirectPath : string) (next : Next) (w : World) (err : ErrorObj) :
  createValidator schema (req_body w) = Rejected err →
  (is_Some (err_details err) →
   ∃ w', validateForm schema redirectPath next w = (Fulfilled (), w')
         ∧ res_sent w' = res_sent w ++ [Redirected redirectPath])
  ∧ (err_details err = None →
     ∃ thrown,
       validateForm schema redirectPath next w = (Rejected thrown, w)
       ∧ err_name thrown = "TypeError").
Proof.
  intros Hv. rewrite (validateForm_rejected _ _ _ _ _ Hv). split.
  - intros [details Hd]. rewrite Hd. eexists. split; reflexivity.
  - intros Hd. rewrite Hd. eexists. split; reflexivity.
Qed.

End Middlewares.

(** ** The centralized error handler *)

(** What the handler does with an error object: one response, with the
    status the object ends up carrying. *)
Lemma handleErrors_responds (next : Next) (w : World) (ref : nat)
    (e : ErrorObj) :
  heap w !! ref = Some e →
  let e' := if falsy (err_statusCode e) then set_statusCode 500 e else e in
  ∃ w',
    handleErrors (Some ref) next w = (Fulfilled (), w')
    ∧ heap w' !! ref = Some e'
    ∧ (∀ other, other ≠ ref → heap w' !! other = heap w !! other)
    ∧ res_statusCode w' = err_statusCode e'
    ∧ res_sent w' = res_sent w ++ [SendJson (err_statusCode e') (err_message e)]
    ∧ console w' = console w ++ [LogText (err_message e)].
Proof.
  intros Hheap.
  unfold handleErrors, mbind, M_bind, deref. simpl. rewrite Hheap.
  destruct (falsy (err_statusCode e)) eqn:Hfalsy; simpl.
  - rewrite lookup_alter_eq, Hheap. simpl. eexists. split; [reflexivity|].
    simpl. rewrite lookup_alter_eq, Hheap. repeat split.
    intros other Hne. by rewrite lookup_alter_ne.
  - rewrite Hheap. eexists. split; [reflexivity|]. simpl. by repeat split.
Qed.

(** C4. The centralized error handler: an error without a status code is
    answered with status 500 and the body {statusCode: 500, message}; an
    error with a status code (400, or any other non-zero one) is answered
    with that status and a body carrying it and the message; and with no
    error the handler only calls [next]. *)
Theorem handleErrors_status (next : Next) (w : World) :
  (∀ ref e,
     heap w !! ref = Some e → err_statusCode e = None →
     ∃ w', handleErrors (Some ref) next w = (Fulfilled (), w')
           ∧ res_statusCode w' = Some 500%Z
           ∧ res_sent w'
             = res_sent w ++ [SendJson (Some 500%Z) (err_message e)])
  ∧ (∀ ref e code,
       heap w !! ref = Some e → err_statusCode e = Some code → code ≠ 0%Z →
       ∃ w', handleErrors (Some ref) next w = (Fulfilled (), w')
             ∧ res_statusCode w' = Some code
             ∧ res_sent w'
               = res_sent w ++ [SendJson (Some code) (err_message e)])
  ∧ handleErrors None next w = (Fulfilled (), next None w).
Proof.
  split; [|split].
  - intros ref e Hheap Hcode.
    destruct (handleErrors_responds next w ref e Hheap)
      as (w' & Hrun & _ & _ & Hstatus & Hsent & _).
    rewrite Hcode in Hstatus, Hsent. simpl in Hstatus, Hsent. eauto.
  - intros ref e code Hheap Hcode Hnz.
    destruct (handleErrors_responds next w ref e Hheap)
      as (w' & Hrun & _ & _ & Hstatus & Hsent & _).
    rewrite Hcode in Hstatus, Hsent. simpl in Hstatus, Hsent.
    destruct (Z.eqb_spec code 0) as [|_]; [done|].
    rewrite Hcode in Hstatus, Hsent. eauto.
  - reflexivity.
Qed.

(** C10. The handler writes to the error object it is passed: an error that
    reaches it without a status code carries [statusCode = 500] in the store
    afterwards (so it is not the object it was), no other object changes,
    and in every case the object ends up with the very status code that was
    set on the response and sent in the body. *)
Theorem handleErrors_assigns_statusCode (next : Next) (w : World) (ref : nat)
    (e : ErrorObj) :
  heap w !! ref = Some e →
  ∃ w' e' code,
    handleErrors (Some ref) next w = (Fulfilled (), w')
    ∧ heap w' !! ref = Some e'
    ∧ err_statusCode e' = Some code
    ∧ res_statusCode w' = Some code
    ∧ res_sent w' = res_sent w ++ [SendJson (Some code) (err_message e)]
    ∧ (err_statusCode e = None → e' = set_statusCode 500 e ∧ e' ≠ e)
    ∧ (∀ other, other ≠ ref → heap w' !! other = heap w !! other).
Proof.
  intros Hheap.
  destruct (handleErrors_responds next w ref e Hheap)
    as (w' & Hrun & Href & Hother & Hstatus & Hsent & _).
  destruct (err_statusCode e) as [code|] eqn:Hcode; simpl in *.
  - destruct (Z.eqb_spec code 0) as [->|Hnz]; simpl in *.
    + exists w', (set_statusCode 500 e), 500%Z. by repeat split.
    + exists w', e, code. rewrite Hcode in Hstatus, Hsent. by repeat split.
  - exists w', (set_statusCode 500 e), 500%Z. repeat split; try done.
    intros Heq. apply (f_equal err_statusCode) in Heq. simpl in Heq.
    by rewrite Hcode in Heq.
Qed.

(** ** The flash-to-view bridge *)

(** Lookups through the inserts and deletes of distinct keys. *)
Ltac map_lookups :=
  repeat first
    [ rewrite lookup_insert_eq
    | rewrite lookup_delete_eq
    | rewrite lookup_insert_ne by done
    | rewrite lookup_delete_ne by done ].

(** C5. The bridge reads and clears exactly the categories "messageSuccess",
    "messageFailure" and "validationFailure": each of them is absent from
    the flash store afterwards and its messages (none, if it was absent) are
    in [res.locals] under the same name; every other category and every
    other local is as before; and the bridge ends by calling [next] with no
    error, whatever the store held. *)
Theorem flashMessageInViews_drains (next : Next) (w : World) :
  ∃ w',
    flashMessageInViews next w = (Fulfilled (), next None w')
    ∧ (∀ category,
         category ∈ ["messageSuccess"; "messageFailure"; "validationFailure"] →
         res_locals w' !! category
         = Some (default [] (session_flash w !! category))
         ∧ session_flash w' !! category = None)
    ∧ (∀ category,
         category ∉ ["messageSuccess"; "messageFailure"; "validationFailure"] →
         res_locals w' !! category = res_locals w !! category
         ∧ session_flash w' !! category = session_flash w !! category)
    ∧ req_body w' = req_body w
    ∧ res_statusCode w' = res_statusCode w
    ∧ res_sent w' = res_sent w
    ∧ heap w' = heap w.
Proof.
  eexists. split; [reflexivity|]. simpl. split; [|split; [|done]].
  - intros category Hin.
    rewrite !elem_of_cons, elem_of_nil in Hin.
    destruct Hin as [->|[->|[->|[]]]]; by map_lookups.
  - intros category Hout.
    rewrite !not_elem_of_cons in Hout. destruct Hout as (H1 & H2 & H3 & _).
    by map_lookups.
Qed.

(** ** The rule engine *)

Section JoiFacts.
Context {runtime : JsRuntime}.

(** *** One field *)

Lemma run_tests_nil_iff {R V : Type}
    (rule : R → V → option ValidationFailure) (tests : list R) (v : V)
    (abort abort' : bool) :
  Joi.run_tests rule abort tests v = [] → Joi.run_tests rule abort' tests v = [].
Proof.
  induction tests as [|r rest IH]; simpl; [done|].
  destruct (rule r v); [by destruct abort|done].
Qed.

Lemma run_tests_abort_length {R V : Type}
    (rule : R → V → option ValidationFailure) (tests : list R) (v : V) :
  (length (Joi.run_tests rule true tests v) ≤ 1)%nat.
Proof.
  induction tests as [|r rest IH]; simpl; [lia|].
  destruct (rule r v); simpl; lia.
Qed.

Lemma string_rule_path (key : string) (r : Joi.StringRule) (s : string)
    (e : ValidationFailure) :
  Joi.string_rule key r s = Some e → path e = [key].
Proof.
  destruct r; simpl; intros Hr; repeat case_match; by simplify_eq.
Qed.

Lemma number_rule_path (key : string) (r : Joi.NumberRule) (q : Q)
    (e : ValidationFailure) :
  Joi.number_rule key r q = Some e → path e = [key].
Proof.
  destruct r; simpl; intros Hr; repeat case_match; by simplify_eq.
Qed.

Lemma run_tests_path {R V : Type}
    (rule : R → V → option ValidationFailure) (key : string)
    (abort : bool) (tests : list R) (v : V) :
  (∀ r e, rule r v = Some e → path e = [key]) →
  Forall (λ e, path e = [key]) (Joi.run_tests rule abort tests v).
Proof.
  intros Hrule. induction tests as [|r rest IH]; simpl; [constructor|].
  destruct (rule r v) as [e|] eqn:Hr; [|done].
  destruct abort; repeat constructor; eauto.
Qed.

(** Every item reported for a field has the one-step path to it. *)
Lemma validate_any_path (abort : bool) (key : string) (schema : Joi.AnySchema)
    (v : option value) :
  Forall (λ e, path e = [key]) (Joi.validate_any abort key schema v).1.
Proof.
  destruct v as [v|]; simpl.
  - destruct schema as [s|n]; simpl.
    + unfold Joi.validate_string.
      destruct v as [| | |str| |]; try (destruct abort; by repeat constructor).
      destruct str as [|c str]; destruct abort; simpl;
        repeat (first [by constructor | constructor; [done|]]);
        apply run_tests_path; intros r e; apply string_rule_path.
    + unfold Joi.validate_number. destruct (Joi.to_number v) as [q|]; simpl.
      * apply run_tests_path; intros r e; apply number_rule_path.
      * by repeat constructor.
  - destruct (Joi.is_required schema); by repeat constructor.
Qed.

(** Whether a field is in error does not depend on [abortEarly]. *)
Lemma validate_any_abort (abort abort' : bool) (key : string)
    (schema : Joi.AnySchema) (v : option value) :
  (Joi.validate_any abort key schema v).1 = [] →
  (Joi.validate_any abort' key schema v).1 = [].
Proof.
  destruct v as [v|]; simpl; [|done].
  destruct schema as [s|n]; simpl.
  - unfold Joi.validate_string.
    destruct v as [| | |str| |]; try (by destruct abort).
    destruct str as [|c str]; [by destruct abort|].
    destruct abort, abort'; simpl; apply run_tests_nil_iff.
  - unfold Joi.validate_number. destruct (Joi.to_number v) as [q|]; simpl; [|done].
    apply run_tests_nil_iff.
Qed.

(** With [abortEarly] a field reports one item at most. *)
Lemma validate_any_abort_length (key : string) (schema : Joi.AnySchema)
    (v : option value) :
  (length (Joi.validate_any true key schema v).1 ≤ 1)%nat.
Proof.
  destruct v as [v|]; simpl.
  - destruct schema as [s|n]; simpl.
    + unfold Joi.validate_string.
      destruct v as [| | |str| |]; simpl; try lia.
      destruct str as [|c str]; simpl; [lia|]. apply run_tests_abort_length.
    + unfold Joi.validate_number. destruct (Joi.to_number v) as [q|]; simpl; [|lia].
      apply run_tests_abort_length.
  - destruct (Joi.is_required schema); simpl; lia.
Qed.

(** The value a valid field gets is present exactly when the field was. *)
Lemma validate_any_value (abort : bool) (key : string) (schema : Joi.AnySchema)
    (v : option value) :
  is_Some (Joi.validate_any abort key schema v).2 ↔ is_Some v.
Proof.
  destruct v as [v|]; simpl.
  - split; [eauto|intros _].
    destruct schema as [s|n]; simpl.
    + unfold Joi.validate_string. repeat case_match; simpl; eauto.
    + unfold Joi.validate_number. repeat case_match; simpl; eauto.
  - destruct (Joi.is_required schema); simpl; split; by intros [? ?].
Qed.

(** A valid field is a fixed point: validating the value it got gives
    that value back, with no error. *)
Lemma validate_any_idempotent (abort : bool) (key : string)
    (schema : Joi.AnySchema) (v r : option value) :
  Joi.validate_any abort key schema v = ([], r) →
  Joi.validate_any abort key schema r = ([], r).
Proof.
  destruct v as [v|]; simpl.
  - destruct schema as [s|n]; simpl.
    + unfold Joi.validate_string.
      destruct v as [| | |str| |]; try (destruct abort; by intros [=]).
      destruct str as [|c str]; [destruct abort; by intros [=]|].
      intros [= Herr <-]. simpl. unfold Joi.validate_string.
      destruct abort; simpl; by rewrite Herr.
    + unfold Joi.validate_number.
      destruct (Joi.to_number v) as [q|] eqn:Hq; [|by intros [=]].
      intros [= Herr <-]. simpl. unfold Joi.validate_number. simpl.
      by rewrite Herr.
  - destruct (Joi.is_required schema) eqn:Hreq; [by intros [=]|].
    intros [= <-]. simpl. by rewrite Hreq.
Qed.

(** *** The children of an object *)

Lemma validate_children_cons (abort : bool) (key : string)
    (schema : Joi.AnySchema) (rest : list (string * Joi.AnySchema))
    (target : Payload) :
  Joi.validate_children abort ((key, schema) :: rest) target
  = let r := Joi.validate_any abort key schema (target !! key) in
    match r.1 with
    | [] => Joi.validate_children abort rest (Joi.settle key r.2 target)
    | _ =>
        if abort then ([Joi.ChildError key r.1], target, true)
        else
          let '(errors, target', stop) :=
            Joi.validate_children abort rest target in
          (Joi.ChildError key r.1 :: errors, target', stop)
    end.
Proof.
  simpl.
  by destruct (Joi.validate_any abort key schema (target !! key))
    as [[|e reason] r].
Qed.

Lemma settle_lookup_ne (key other : string) (r : option value)
    (target : Payload) :
  key ≠ other → Joi.settle key r target !! other = target !! other.
Proof. intros Hne. destruct r; simpl; [by rewrite lookup_insert_ne|done]. Qed.

Lemma settle_lookup (abort : bool) (key : string) (schema : Joi.AnySchema)
    (target : Payload) :
  Joi.settle key (Joi.validate_any abort key schema (target !! key)).2 target
    !! key
  = (Joi.validate_any abort key schema (target !! key)).2.
Proof.
  pose proof (validate_any_value abort key schema (target !! key)) as Hv.
  destruct (Joi.validate_any abort key schema (target !! key)).2 as [v|];
    simpl; [by rewrite lookup_insert_eq|].
  destruct (target !! key) as [v|]; [|done].
  destruct Hv as [_ Hv]. by destruct Hv as [? ?]; [eauto|].
Qed.

(** The children only write under their own keys. *)
Lemma validate_children_frame (abort : bool)
    (cs : list (string * Joi.AnySchema)) (target : Payload) (key : string) :
  key ∉ cs.*1 →
  (Joi.validate_children abort cs target).1.2 !! key = target !! key.
Proof.
  revert target. induction cs as [|[k s] rest IH]; intros target Hout;
    [done|].
  rewrite fmap_cons, not_elem_of_cons in Hout. destruct Hout as [Hne Hout].
  rewrite validate_children_cons. simpl.
  destruct (Joi.validate_any abort k s (target !! k)).1.
  - rewrite IH by done. by apply settle_lookup_ne.
  - destruct abort; [done|].
    specialize (IH target Hout).
    by destruct (Joi.validate_children false rest target) as [[? ?] ?].
Qed.

(** They add no key and remove none. *)
Lemma validate_children_keys (abort : bool)
    (cs : list (string * Joi.AnySchema)) (target : Payload) (key : string) :
  is_Some ((Joi.validate_children abort cs target).1.2 !! key)
  ↔ is_Some (target !! key).
Proof.
  revert target. induction cs as [|[k s] rest IH]; intros target; [done|].
  rewrite validate_children_cons. simpl.
  destruct (Joi.validate_any abort k s (target !! k)).1 eqn:Herr.
  - rewrite IH. destruct (decide (k = key)) as [->|Hne].
    + rewrite settle_lookup. apply validate_any_value.
    + by rewrite settle_lookup_ne.
  - destruct abort; [done|].
    specialize (IH target).
    by destruct (Joi.validate_children false rest target) as [[? ?] ?].
Qed.

(** Without [abortEarly] the loop runs to its end. *)
Lemma validate_children_no_stop (cs : list (string * Joi.AnySchema))
    (target : Payload) :
  (Joi.validate_children false cs target).2 = false.
Proof.
  revert target. induction cs as [|[k s] rest IH]; intros target; [done|].
  rewrite validate_children_cons. simpl.
  destruct (Joi.validate_any false k s (target !! k)).1; [apply IH|].
  specialize (IH target).
  by destruct (Joi.validate_children false rest target) as [[? ?] ?].
Qed.

(** Collect-all: without [abortEarly], every failing child is among the
    errors, with all its reasons. *)
Lemma validate_children_collects (cs : list (string * Joi.AnySchema))
    (target : Payload) (key : string) (schema : Joi.AnySchema) :
  NoDup cs.*1 → (key, schema) ∈ cs →
  Joi.fails key schema (target !! key) →
  Joi.ChildError key (Joi.validate_any false key schema (target !! key)).1
  ∈ (Joi.validate_children false cs target).1.1.
Proof.
  revert target. induction cs as [|[k s] rest IH]; intros target Hnd Hin Hf.
  { by apply elem_of_nil in Hin. }
  rewrite fmap_cons, NoDup_cons in Hnd. destruct Hnd as [Hk Hnd].
  rewrite validate_children_cons. simpl.
  apply elem_of_cons in Hin as [[= <- <-]|Hin].
  - unfold Joi.fails in Hf.
    destruct (Joi.validate_any false key schema (target !! key)).1;
      [done|].
    destruct (Joi.validate_children false rest target) as [[? ?] ?].
    simpl. apply elem_of_cons. by left.
  - assert (k ≠ key) as Hne.
    { intros ->. apply Hk. apply list_elem_of_fmap. by exists (key, schema). }
    destruct (Joi.validate_any false k s (target !! k)).1.
    + rewrite <-(settle_lookup_ne k key
                   (Joi.validate_any false k s (target !! k)).2 target Hne).
      apply IH; [done..|]. by rewrite settle_lookup_ne.
    + specialize (IH target Hnd Hin Hf).
      destruct (Joi.validate_children false rest target) as [[? ?] ?].
      simpl in *. apply elem_of_cons. by right.
Qed.

(** With [abortEarly], a failing child ends the loop at the first failing
    child, with a single reason. *)
Lemma validate_children_aborts (cs : list (string * Joi.AnySchema))
    (target : Payload) (key : string) (schema : Joi.AnySchema) :
  NoDup cs.*1 → (key, schema) ∈ cs →
  Joi.fails key schema (target !! key) →
  ∃ first reason target',
    Joi.validate_children true cs target
    = ([Joi.ChildError first [reason]], target', true).
Proof.
  revert target. induction cs as [|[k s] rest IH]; intros target Hnd Hin Hf.
  { by apply elem_of_nil in Hin. }
  rewrite fmap_cons, NoDup_cons in Hnd. destruct Hnd as [Hk Hnd].
  rewrite validate_children_cons. simpl.
  pose proof (validate_any_abort_length k s (target !! k)) as Hlen.
  destruct (Joi.validate_any true k s (target !! k)).1 as [|e [|e' es]]
    eqn:Herr; [|by eauto|simpl in Hlen; lia].
  apply elem_of_cons in Hin as [[= <- <-]|Hin].
  - exfalso. apply Hf. by apply (validate_any_abort true false).
  - assert (k ≠ key) as Hne.
    { intros ->. apply Hk. apply list_elem_of_fmap. by exists (key, schema). }
    apply IH; [done..|]. by rewrite settle_lookup_ne.
Qed.

(** A run without errors is a fixed point of the loop. *)
Lemma validate_children_idempotent (abort : bool)
    (cs : list (string * Joi.AnySchema)) (target target' : Payload)
    (stop : bool) :
  NoDup cs.*1 →
  Joi.validate_children abort cs target = ([], target', stop) →
  Joi.validate_children abort cs target' = ([], target', false).
Proof.
  revert target. induction cs as [|[k s] rest IH]; intros target Hnd Hrun.
  { by simplify_eq/=. }
  rewrite fmap_cons, NoDup_cons in Hnd. destruct Hnd as [Hk Hnd].
  rewrite validate_children_cons in Hrun. simpl in Hrun.
  destruct (Joi.validate_any abort k s (target !! k)) as [errors r] eqn:Hany.
  simpl in Hrun. destruct errors as [|e errors].
  - assert (target' !! k = r) as Hk'.
    { pose proof (validate_children_frame abort rest (Joi.settle k r target) k Hk)
        as Hframe.
      rewrite Hrun in Hframe. simpl in Hframe. rewrite Hframe.
      pose proof (settle_lookup abort k s target) as Hs.
      by rewrite Hany in Hs. }
    rewrite validate_children_cons. simpl.
    rewrite Hk', (validate_any_idempotent _ _ _ _ _ Hany). simpl.
    assert (Joi.settle k r target' = target') as ->.
    { destruct r as [v|]; simpl; [by apply insert_id|done]. }
    by eapply IH.
  - destruct abort; [done|].
    by destruct (Joi.validate_children false rest target) as [[? ?] ?].
Qed.

(** *** The whole object *)

Lemma unprocessed_nil (cs : list (string * Joi.AnySchema))
    (payload : Payload) :
  Joi.unprocessed cs payload = []
  ↔ ∀ key, is_Some (payload !! key) → key ∈ cs.*1.
Proof.
  unfold Joi.unprocessed. split.
  - intros Hnil key [v Hv].
    destruct (decide (key ∈ cs.*1)) as [|Hout]; [done|].
    exfalso. eapply (filter_nil_not_elem_of _ _ key Hnil Hout).
    apply list_elem_of_fmap. exists (key, v). split; [done|].
    by apply elem_of_map_to_list.
  - intros Hall. apply elem_of_nil_inv. intros key.
    rewrite list_elem_of_filter. intros [Hout Hin].
    apply list_elem_of_fmap in Hin as ([k v] & -> & Hin). apply Hout, Hall.
    apply elem_of_map_to_list in Hin. eauto.
Qed.

(** What [createValidator] gets from the engine: the errors of all the
    children, then the unknown keys. *)
Lemma validate_collecting (schema : Joi.ObjectSchema) (payload : Payload) :
  Joi.validate payload schema {| abortEarly := false |}
  = let r := Joi.validate_children false (Joi.children schema) payload in
    match r.1.1 ++ (Joi.UnknownKey <$>
                      Joi.unprocessed (Joi.children schema) payload) with
    | [] => Fulfilled r.1.2
    | errors => Rejected (Joi.ValidationError errors)
    end.
Proof.
  unfold Joi.validate, Joi.validate_object. simpl.
  pose proof (validate_children_no_stop (Joi.children schema) payload) as Hs.
  destruct (Joi.validate_children false (Joi.children schema) payload)
    as [[errors target] stop].
  simpl in *. subst stop. by destruct (errors ++ _).
Qed.

Lemma details_of_child (errors : list Joi.ObjectError) (key : string)
    (reason : list ValidationFailure) (e : ValidationFailure) :
  Joi.ChildError key reason ∈ errors → e ∈ reason →
  e ∈ Joi.details_of errors.
Proof.
  intros Hin He. unfold Joi.details_of. apply list_elem_of_bind.
  by exists (Joi.ChildError key reason).
Qed.

Lemma validate_children_reasons (abort : bool)
    (cs : list (string * Joi.AnySchema)) (target : Payload) :
  Forall Joi.has_reason (Joi.validate_children abort cs target).1.1.
Proof.
  revert target. induction cs as [|[k s] rest IH]; intros target;
    [constructor|].
  rewrite validate_children_cons. simpl.
  destruct (Joi.validate_any abort k s (target !! k)).1 as [|e reason];
    [apply IH|].
  destruct abort; [by repeat constructor|].
  specialize (IH target).
  destruct (Joi.validate_children false rest target) as [[? ?] ?].
  by constructor.
Qed.

Lemma details_of_nonempty (errors : list Joi.ObjectError) :
  Forall Joi.has_reason errors → errors ≠ [] → Joi.details_of errors ≠ [].
Proof.
  intros Hall Hne. destruct errors as [|e errors]; [done|].
  apply Forall_cons in Hall as [He _]. unfold Joi.details_of. csimpl.
  destruct e as [key [|e reason]|key]; simpl in *; done.
Qed.

(** The engine never rejects without [details]: a rejection lists at least
    one failure. *)
Lemma validate_rejection_details (payload : Payload)
    (schema : Joi.ObjectSchema) (options : ValidateOptions) (err : ErrorObj) :
  Joi.validate payload schema options = Rejected err →
  ∃ details, err_details err = Some details ∧ details ≠ [].
Proof.
  unfold Joi.validate, Joi.validate_object.
  pose proof (validate_children_reasons (abortEarly options)
                (Joi.children schema) payload) as Hall.
  destruct (Joi.validate_children (abortEarly options) (Joi.children schema)
              payload) as [[errors target] stop].
  simpl in Hall.
  assert (Forall Joi.has_reason
            (errors ++ (Joi.UnknownKey <$>
                          Joi.unprocessed (Joi.children schema) payload)))
    as Hall'.
  { apply Forall_app. split; [done|]. by apply Forall_fmap, Forall_true. }
  destruct stop.
  - destruct errors as [|e errors]; [done|]. intros [= <-].
    eexists. split; [done|]. by apply details_of_nonempty.
  - destruct (errors ++ _) as [|e errors'] eqn:Happ; [done|]. intros [= <-].
    eexists. split; [done|]. by apply details_of_nonempty.
Qed.

(** With this engine every invalid body takes the flash-and-redirect branch
    of the form middleware. *)
Lemma validateForm_invalid_body (schema : Joi.ObjectSchema)
    (redirectPath : string) (next : Next) (w : World) (err : ErrorObj) :
  createValidator schema (req_body w) = Rejected err →
  ∃ details w',
    err_details err = Some details
    ∧ validateForm schema redirectPath next w = (Fulfilled (), w')
    ∧ session_flash w'
      = <["validationFailure" :=
            default [] (session_flash w !! "validationFailure")
            ++ (message <$> details)]> (session_flash w)
    ∧ res_sent w' = res_sent w ++ [Redirected redirectPath].
Proof.
  intros Hv.
  destruct (validate_rejection_details _ _ _ _ Hv) as (details & Hd & _).
  exists details. eexists. split; [done|]. split.
  - rewrite (validateForm_rejected _ _ _ _ _ Hv), Hd. reflexivity.
  - done.
Qed.

(** Both fields of the product creation schema are required. *)
Lemma createProductSchema_required :
  Forall (λ c, Joi.is_required c.2 = true) (Joi.children createProductSchema).
Proof. by repeat constructor. Qed.

(** A failing field makes the validator reject, with an item for it. *)
Lemma createValidator_reports (schema : Joi.ObjectSchema)
    (payload : Payload) (key : string) (s : Joi.AnySchema) :
  (key, s) ∈ Joi.children schema →
  Joi.fails key s (payload !! key) →
  ∃ errors,
    createValidator schema payload = Rejected (Joi.ValidationError errors)
    ∧ ∀ e, e ∈ (Joi.validate_any false key s (payload !! key)).1 →
           e ∈ Joi.details_of errors.
Proof.
  intros Hin Hf.
  pose proof (validate_children_collects _ payload key s
                (Joi.children_distinct schema) Hin Hf) as Hc.
  unfold createValidator. simpl. rewrite validate_collecting. simpl.
  destruct (Joi.validate_children false (Joi.children schema) payload).1.1
    as [|e0 errors] eqn:Herr; [by apply elem_of_nil in Hc|].
  simpl. eexists. split; [done|].
  intros e He. eapply details_of_child; [|done].
  rewrite app_comm_cons. apply elem_of_app. by left.
Qed.

(** C1. Collect-all.  When two (or more) fields of the payload violate
    their schemas, the function made by [createValidator] rejects, and the
    [details] of the rejection have an entry for every failing field, each
    with the path of its field.  [createValidator] asks for this by passing
    [abortEarly: false]; the engine's default is [abortEarly: true], under
    which the same payload is rejected with one entry only, which cannot
    cover both fields. *)
Theorem createValidator_collects_all (schema : Joi.ObjectSchema)
    (payload : Payload) (key1 key2 : string) (s1 s2 : Joi.AnySchema) :
  (key1, s1) ∈ Joi.children schema →
  (key2, s2) ∈ Joi.children schema →
  key1 ≠ key2 →
  Joi.fails key1 s1 (payload !! key1) →
  Joi.fails key2 s2 (payload !! key2) →
  (∃ err details,
     createValidator schema payload = Rejected err
     ∧ err_details err = Some details
     ∧ ∀ key s,
         (key, s) ∈ Joi.children schema →
         Joi.fails key s (payload !! key) →
         ∃ failure, failure ∈ details ∧ path failure = [key])
  ∧ createValidator schema payload
    = Joi.validate payload schema {| abortEarly := false |}
  ∧ abortEarly Joi.defaults = true
  ∧ (∃ err failure,
       Joi.validate payload schema Joi.defaults = Rejected err
       ∧ err_details err = Some [failure]
       ∧ ¬ (path failure = [key1] ∧ path failure = [key2])).
Proof.
  intros Hin1 Hin2 Hne Hf1 Hf2. split; [|split; [done|split; [done|]]].
  - destruct (createValidator_reports schema payload key1 s1 Hin1 Hf1)
      as (errors & Hrun & _).
    exists (Joi.ValidationError errors), (Joi.details_of errors).
    split; [done|]. split; [done|]. intros key s Hin Hf.
    destruct (createValidator_reports schema payload key s Hin Hf)
      as (errors' & Hrun' & Hall).
    rewrite Hrun in Hrun'. injection Hrun' as Heq.
    pose proof (validate_any_path false key s (payload !! key)) as Hpath.
    unfold Joi.fails in Hf.
    destruct (Joi.validate_any false key s (payload !! key)).1
      as [|e reason]; [done|].
    exists e. split.
    + replace (Joi.details_of errors) with (Joi.details_of errors')
        by congruence.
      apply Hall. by left.
    + by apply Forall_cons in Hpath as [? _].
  - destruct (validate_children_aborts _ payload key1 s1
                (Joi.children_distinct schema) Hin1 Hf1)
      as (first & reason & target' & Hrun).
    exists (Joi.ValidationError [Joi.ChildError first [reason]]), reason.
    unfold Joi.validate, Joi.validate_object. simpl. rewrite Hrun.
    split; [done|]. split; [done|].
    intros [H1 H2]. rewrite H1 in H2. by simplify_eq.
Qed.

(** C7. A payload that omits a required field is rejected, and [details]
    has an entry of kind "any.required" whose path holds the name of the
    missing field. *)
Theorem createValidator_missing_required (schema : Joi.ObjectSchema)
    (payload : Payload) (key : string) (s : Joi.AnySchema) :
  (key, s) ∈ Joi.children schema →
  Joi.is_required s = true →
  payload !! key = None →
  ∃ err details failure,
    createValidator schema payload = Rejected err
    ∧ err_details err = Some details
    ∧ failure ∈ details
    ∧ key ∈ path failure
    ∧ type failure = "any.required".
Proof.
  intros Hin Hreq Hmiss.
  destruct (createValidator_reports schema payload key s Hin)
    as (errors & Hrun & Hall).
  { unfold Joi.fails. rewrite Hmiss. simpl. by rewrite Hreq. }
  exists (Joi.ValidationError errors), (Joi.details_of errors),
    (Joi.item key " is required" "any.required").
  split; [done|]. split; [done|]. split; [|split; [by left|done]].
  apply Hall. rewrite Hmiss. simpl. rewrite Hreq. by left.
Qed.

(** C6. Idempotence: when the validator resolves with a normalized
    payload, validating that payload again resolves with the very same
    payload. *)
Theorem createValidator_idempotent (schema : Joi.ObjectSchema)
    (payload validated : Payload) :
  createValidator schema payload = Fulfilled validated →
  createValidator schema validated = Fulfilled validated.
Proof.
  unfold createValidator. simpl. rewrite !validate_collecting. simpl.
  intros Hrun.
  destruct (Joi.validate_children false (Joi.children schema) payload)
    as [[errors target] stop] eqn:Hchildren.
  simpl in Hrun.
  destruct (errors ++ _) eqn:Herrors in Hrun; [|done].
  injection Hrun as ->.
  apply app_nil in Herrors as [-> Hunknown].
  apply fmap_nil_inv in Hunknown.
  rewrite (validate_children_idempotent _ _ _ _ _
             (Joi.children_distinct schema) Hchildren). simpl.
  assert (Joi.unprocessed (Joi.children schema) validated = []) as ->; [|done].
  apply unprocessed_nil. intros key Hkey.
  apply (proj1 (unprocessed_nil _ _) Hunknown).
  pose proof (validate_children_keys false (Joi.children schema) payload key)
    as Hkeys.
  rewrite Hchildren in Hkeys. by apply Hkeys.
Qed.

End JoiFacts.

(** ** The signup route *)

Section Signup.
Context {runtime : JsRuntime}.

(** C8. No field of the signup schema is required, so the empty payload is
    valid; a POST /signup whose body is empty therefore takes the success
    branch: the route flashes "woohoo" under "messageSuccess" and redirects
    to /signup, and no validation failure is flashed. *)
Theorem post_signup_empty_body (next : Next) (w : World) :
  Forall (λ c, Joi.is_required c.2 = false) (Joi.children createUserSchema)
  ∧ createValidator createUserSchema ∅ = Fulfilled ∅
  ∧ (req_body w = ∅ →
     ∃ w',
       post_signup next w = (Fulfilled (), w')
       ∧ session_flash w'
         = <["messageSuccess" :=
               default [] (session_flash w !! "messageSuccess")
               ++ ["woohoo"]]> (session_flash w)
       ∧ session_flash w' !! "validationFailure"
         = session_flash w !! "validationFailure"
       ∧ res_sent w' = res_sent w ++ [Redirected "/signup"]
       ∧ req_body w' = ∅).
Proof.
  split; [by repeat constructor|]. split; [reflexivity|].
  intros Hbody. eexists. split.
  - unfold post_signup. rewrite (validateForm_fulfilled _ _ _ _ ∅).
    + reflexivity.
    + by rewrite Hbody.
  - simpl. repeat split. by rewrite lookup_insert_ne.
Qed.

End Signup.

(** * Further properties of the handlers *)

(** ** The form middleware on a valid body *)

Section FormSuccess.
Context {Schema : Type} {engine : ValidationEngine Schema}.

(** X1. On a body that validates, the form middleware replaces [req.body]
    by the normalized payload and calls [next] with no error; it flashes
    nothing, sends nothing, and does exactly what the API middleware does. *)
Theorem validateForm_valid_body (schema : Schema) (redirectPath : string)
    (next : Next) (w : World) (validated : Payload) :
  createValidator schema (req_body w) = Fulfilled validated →
  validateForm schema redirectPath next w
  = (Fulfilled (), next None (with_req_body validated w))
  ∧ session_flash (with_req_body validated w) = session_flash w
  ∧ res_sent (with_req_body validated w) = res_sent w
  ∧ validateForm schema redirectPath next w = validateMiddleware schema next w.
Proof.
  intros Hv. rewrite (validateForm_fulfilled _ _ _ _ _ Hv).
  repeat split.
  unfold validateMiddleware, promise_catch, mbind at 1, M_bind at 1.
  simpl. by rewrite (validate_then_fulfilled _ _ _ _ Hv).
Qed.

End FormSuccess.

(** ** The two signup handlers *)

Section SignupHandlers.
Context {runtime : JsRuntime}.

(** A rejection of the engine is a [ValidationError] built from at least one
    error, each failing child with a reason. *)
Lemma validate_rejection_shape (payload : Payload)
    (schema : Joi.ObjectSchema) (options : ValidateOptions) (err : ErrorObj) :
  Joi.validate payload schema options = Rejected err →
  ∃ errors, err = Joi.ValidationError errors ∧ errors ≠ [].
Proof.
  unfold Joi.validate.
  destruct (Joi.validate_object (abortEarly options) schema payload)
    as [[|e errors] target]; [done|].
  intros [= <-]. by eexists.
Qed.

Lemma signup_create_fulfilled (next : Next) (w : World) (data : Payload) :
  createValidator createUserSchema (req_body w) = Fulfilled data →
  signup_create next w
  = (console_log (LogPayload data);;
     req_flash_push "messageSuccess" ["Success valid input"];;
     res_redirect "/signup") w.
Proof.
  intros Hv.
  unfold signup_create, validateUser, promise_catch, promise_then, await,
    get_req_body, mbind at 1 2, M_bind at 1 2.
  by rewrite Hv.
Qed.

Lemma signup_create_rejected (next : Next) (w : World) (err : ErrorObj) :
  createValidator createUserSchema (req_body w) = Rejected err →
  signup_create next w
  = (errorMessages ← array_map message (err_details err);
     console_log (LogList errorMessages);;
     req_flash_push "validationFailure" errorMessages;;
     res_redirect "/signup") w.
Proof.
  intros Hv.
  unfold signup_create, validateUser, promise_catch, promise_then, await,
    get_req_body, mbind at 1 2, M_bind at 1 2.
  by rewrite Hv.
Qed.

(** X2. The inline signup handler answers every request with one redirect to
    /signup and never calls [next]: a valid body queues "Success valid input"
    under "messageSuccess", an invalid one queues the messages of the
    failures, which are never none, under "validationFailure".  The body of
    the request is left as it was. *)
Theorem signup_create_always_redirects (next : Next) (w : World) :
  ∃ w',
    signup_create next w = (Fulfilled (), w')
    ∧ (∀ next', signup_create next' w = (Fulfilled (), w'))
    ∧ res_sent w' = res_sent w ++ [Redirected "/signup"]
    ∧ req_body w' = req_body w
    ∧ match createValidator createUserSchema (req_body w) with
      | Fulfilled _ =>
          session_flash w'
          = <["messageSuccess" :=
                default [] (session_flash w !! "messageSuccess")
                ++ ["Success valid input"]]> (session_flash w)
      | Rejected err =>
          ∃ details,
            err_details err = Some details ∧ details ≠ []
            ∧ session_flash w'
              = <["validationFailure" :=
                    default [] (session_flash w !! "validationFailure")
                    ++ (message <$> details)]> (session_flash w)
      end.
Proof.
  destruct (createValidator createUserSchema (req_body w)) as [data|err]
    eqn:Hv.
  - eexists. split; [by rewrite (signup_create_fulfilled _ _ _ Hv)|].
    split; [intros next'; by rewrite (signup_create_fulfilled _ _ _ Hv)|].
    done.
  - destruct (validate_rejection_details _ _ _ _ Hv) as (details & Hd & Hne).
    eexists. split.
    { rewrite (signup_create_rejected _ _ _ Hv), Hd. reflexivity. }
    split.
    { intros next'. by rewrite (signup_create_rejected _ _ _ Hv), Hd. }
    simpl. repeat split. by exists details.
Qed.

(** X3. The signup route behind the form middleware also answers every
    request with one redirect to /signup, and hands nothing to [next] (so
    nothing of it reaches the error handlers): a valid body is replaced by
    the normalized payload and "woohoo" is queued under "messageSuccess", an
    invalid body is kept and the messages of its failures are queued under
    "validationFailure". *)
Theorem post_signup_always_redirects (next : Next) (w : World) :
  ∃ w',
    post_signup next w = (Fulfilled (), w')
    ∧ (∀ next', post_signup next' w = (Fulfilled (), w'))
    ∧ res_sent w' = res_sent w ++ [Redirected "/signup"]
    ∧ match createValidator createUserSchema (req_body w) with
      | Fulfilled validated =>
          req_body w' = validated
          ∧ session_flash w'
            = <["messageSuccess" :=
                  default [] (session_flash w !! "messageSuccess")
                  ++ ["woohoo"]]> (session_flash w)
      | Rejected err =>
          ∃ details,
            err_details err = Some details ∧ details ≠ []
            ∧ req_body w' = req_body w
            ∧ session_flash w'
              = <["validationFailure" :=
                    default [] (session_flash w !! "validationFailure")
                    ++ (message <$> details)]> (session_flash w)
      end.
Proof.
  unfold post_signup.
  destruct (createValidator createUserSchema (req_body w)) as [data|err]
    eqn:Hv.
  - eexists. split; [by rewrite (validateForm_fulfilled _ _ _ _ _ Hv)|].
    split; [intros next'; by rewrite (validateForm_fulfilled _ _ _ _ _ Hv)|].
    done.
  - destruct (validate_rejection_details _ _ _ _ Hv) as (details & Hd & Hne).
    eexists. split.
    { rewrite (validateForm_rejected _ _ _ _ _ Hv), Hd. reflexivity. }
    split.
    { intros next'. by rewrite (validateForm_rejected _ _ _ _ _ Hv), Hd. }
    simpl. repeat split. by exists details.
Qed.

(** X4. Moving the validation of the signup form into the form middleware
    changed nothing for invalid bodies: on a body that does not validate the
    inline handler and the route behind the middleware end in the same
    state, whatever their continuations are. *)
Theorem signup_create_as_post_signup (next next' : Next) (w : World)
    (err : ErrorObj) :
  createValidator createUserSchema (req_body w) = Rejected err →
  signup_create next w = post_signup next' w.
Proof.
  intros Hv. unfold post_signup.
  by rewrite (signup_create_rejected _ _ _ Hv),
    (validateForm_rejected _ _ _ _ _ Hv).
Qed.

End SignupHandlers.

(** ** The error handler at its edges *)

(** X5. A status code of 0 is falsy, so the handler treats it as missing:
    the response has status 500 and the error object is overwritten with
    [statusCode = 500]. *)
Theorem handleErrors_zero_statusCode (next : Next) (w : World) (ref : nat)
    (e : ErrorObj) :
  heap w !! ref = Some e →
  err_statusCode e = Some 0%Z →
  ∃ w',
    handleErrors (Some ref) next w = (Fulfilled (), w')
    ∧ res_statusCode w' = Some 500%Z
    ∧ res_sent w' = res_sent w ++ [SendJson (Some 500%Z) (err_message e)]
    ∧ heap w' !! ref = Some (set_statusCode 500 e).
Proof.
  intros Hheap Hzero.
  destruct (handleErrors_responds next w ref e Hheap)
    as (w' & Hrun & Href & _ & Hstatus & Hsent & _).
  rewrite Hzero in Href, Hstatus, Hsent. simpl in *. eauto.
Qed.

(** X6. With an error to handle, the handler never calls [next]: its outcome
    is the same for every continuation.  It sends exactly one response and
    leaves the request body, the flash store and the view context alone. *)
Theorem handleErrors_is_terminal (next : Next) (w : World) (ref : nat)
    (e : ErrorObj) :
  heap w !! ref = Some e →
  ∃ w' response,
    (∀ next', handleErrors (Some ref) next' w = (Fulfilled (), w'))
    ∧ res_sent w' = res_sent w ++ [response]
    ∧ req_body w' = req_body w
    ∧ session_flash w' = session_flash w
    ∧ res_locals w' = res_locals w.
Proof.
  intros Hheap.
  destruct (falsy (err_statusCode e)) eqn:Hfalsy.
  - eexists _, _. split.
    + intros next'.
      unfold handleErrors, mbind, M_bind, deref. simpl. rewrite Hheap. simpl.
      rewrite Hfalsy. simpl. rewrite lookup_alter_eq, Hheap. simpl.
      reflexivity.
    + by simpl.
  - eexists _, _. split.
    + intros next'.
      unfold handleErrors, mbind, M_bind, deref. simpl. rewrite Hheap. simpl.
      rewrite Hfalsy. simpl. rewrite Hheap. reflexivity.
    + by simpl.
Qed.

(** ** Flash messages from one request to the next *)

(** The state the bridge hands to [next]. *)
Lemma flashMessageInViews_run (next : Next) (w : World) :
  ∃ w',
    flashMessageInViews next w = (Fulfilled (), next None w')
    ∧ req_body w' = req_body w
    ∧ res_sent w' = res_sent w
    ∧ session_flash w'
      = delete "validationFailure"
          (delete "messageFailure" (delete "messageSuccess" (session_flash w)))
    ∧ ∀ category,
        category ∈ ["messageSuccess"; "messageFailure"; "validationFailure"] →
        res_locals w' !! category
        = Some (default [] (session_flash w !! category)).
Proof.
  eexists. split; [reflexivity|]. simpl. repeat split.
  intros category Hin.
  rewrite !elem_of_cons, elem_of_nil in Hin.
  destruct Hin as [->|[->|[->|[]]]]; by map_lookups.
Qed.

(** X7. Flash messages are shown once.  After the bridge has run, the three
    categories are gone from the session, so on any later request that finds
    the session as the bridge left it, the bridge puts empty lists in the
    view context. *)
Theorem flashMessageInViews_shows_once (next : Next) (w : World) :
  ∃ w',
    flashMessageInViews next w = (Fulfilled (), next None w')
    ∧ ∀ (later : World) (next' : Next),
        session_flash later = session_flash w' →
        ∃ later',
          flashMessageInViews next' later = (Fulfilled (), next' None later')
          ∧ ∀ category,
              category
              ∈ ["messageSuccess"; "messageFailure"; "validationFailure"] →
              res_locals later' !! category = Some [].
Proof.
  destruct (flashMessageInViews_run next w) as (w' & Hrun & _ & _ & Hflash & _).
  exists w'. split; [done|]. intros later next' Hsession.
  destruct (flashMessageInViews_run next' later)
    as (later' & Hrun' & _ & _ & _ & Hlocals).
  exists later'. split; [done|]. intros category Hin.
  rewrite (Hlocals category Hin), Hsession, Hflash.
  rewrite !elem_of_cons, elem_of_nil in Hin.
  destruct Hin as [->|[->|[->|[]]]]; by map_lookups.
Qed.

Section Application.
Context {runtime : JsRuntime}.

(** X8. An invalid signup, from the POST to the page that shows the errors.
    Whatever the session held, the POST ends with a redirect to /signup and
    with exactly the messages of the failures, in the order of [details],
    under "validationFailure" (the bridge emptied the category before the
    route ran); on the next request of the session the bridge hands exactly
    these messages to the view and removes them from the session. *)
Theorem app_post_signup_shows_failures (final : Next) (w : World)
    (err : ErrorObj) :
  createValidator createUserSchema (req_body w) = Rejected err →
  ∃ details w1,
    err_details err = Some details
    ∧ app_post_signup final w = (Fulfilled (), w1)
    ∧ res_sent w1 = res_sent w ++ [Redirected "/signup"]
    ∧ session_flash w1 !! "validationFailure" = Some (message <$> details)
    ∧ ∀ (later : World) (next : Next),
        session_flash later = session_flash w1 →
        ∃ later',
          flashMessageInViews next later = (Fulfilled (), next None later')
          ∧ res_locals later' !! "validationFailure"
            = Some (message <$> details)
          ∧ session_flash later' !! "validationFailure" = None.
Proof.
  intros Hv.
  destruct (validate_rejection_details _ _ _ _ Hv) as (details & Hd & _).
  exists details. eexists. split; [done|]. split.
  { unfold app_post_signup, flashMessageInViews, mbind, M_bind, call. simpl.
    unfold started, post_signup.
    rewrite (validateForm_rejected _ _ _ _ err) by done.
    rewrite Hd. reflexivity. }
  simpl. split; [done|]. split; [by map_lookups|].
  intros later next Hsession.
  destruct (flashMessageInViews_run next later)
    as (later' & Hrun & _ & _ & Hflash & Hlocals).
  exists later'. split; [done|]. split.
  - rewrite Hlocals by repeat constructor. rewrite Hsession. by map_lookups.
  - rewrite Hflash. by map_lookups.
Qed.

(** X9. The rejections of the validator carry no status code, so when one of
    them is handed to the error handler the client gets status 500, with the
    message of the validation error in the body. *)
Theorem handleErrors_validation_failure (schema : Joi.ObjectSchema)
    (payload : Payload) (err : ErrorObj) (next : Next) (w : World)
    (ref : nat) :
  createValidator schema payload = Rejected err →
  heap w !! ref = Some err →
  ∃ w' text,
    handleErrors (Some ref) next w = (Fulfilled (), w')
    ∧ err_message err = Some text
    ∧ res_statusCode w' = Some 500%Z
    ∧ res_sent w' = res_sent w ++ [SendJson (Some 500%Z) (Some text)].
Proof.
  intros Hv Hheap.
  destruct (validate_rejection_shape _ _ _ _ Hv) as (errors & -> & _).
  destruct (handleErrors_responds next w ref _ Hheap)
    as (w' & Hrun & _ & _ & Hstatus & Hsent & _).
  simpl in *. eexists w', _. by repeat split.
Qed.

End Application.

(** ** What the validator accepts and what it gives back *)

Section Acceptance.
Context {runtime : JsRuntime}.

Lemma not_fails (key : string) (s : Joi.AnySchema) (v : option value) :
  ¬ Joi.fails key s v ↔ (Joi.validate_any false key s v).1 = [].
Proof.
  unfold Joi.fails.
  destruct (Joi.validate_any false key s v).1 as [|e es].
  - split; [done|]. intros _ Hn. by apply Hn.
  - split; [|done]. intros Hn. exfalso. by apply Hn.
Qed.

Lemma run_tests_passes {R V : Type}
    (rule : R → V → option ValidationFailure) (tests : list R) (v : V) :
  Joi.run_tests rule false tests v = []
  ↔ Forall (λ r, rule r v = None) tests.
Proof.
  induction tests as [|r rest IH]; simpl; [done|].
  rewrite Forall_cons. destruct (rule r v); [|by rewrite IH; intuition].
  by split; [|intros [? _]].
Qed.

(** A string field passes when it is absent and not required, or a
    non-empty string that passes every rule. *)
Lemma string_field_passes (key : string) (s : Joi.StringSchema)
    (v : option value) :
  ¬ Joi.fails key (Joi.AString s) v
  ↔ (v = None ∧ Joi.s_required s = false)
    ∨ ∃ str, v = Some (VStr str) ∧ str ≠ ""
             ∧ Forall (λ r, Joi.string_rule key r str = None) (Joi.s_tests s).
Proof.
  rewrite not_fails. destruct v as [v|]; simpl.
  - unfold Joi.validate_string.
    destruct v as [| | |str| |]; simpl;
      try (split; [done|by intros [[? _]|(? & ? & _)]]).
    destruct str as [|c str]; simpl.
    + split; [done|]. by intros [[? _]|(? & [= <-] & ? & _)].
    + rewrite run_tests_passes. split.
      * intros Hall. right. by eexists.
      * by intros [[? _]|(? & [= <-] & _ & ?)].
  - destruct (Joi.s_required s); simpl.
    + split; [done|]. by intros [[_ ?]|(? & ? & _)].
    + split; [by left|done].
Qed.

(** A number field passes when it is absent and not required, or a number
    (or a string that reads as one) that passes every rule. *)
Lemma number_field_passes (key : string) (n : Joi.NumberSchema)
    (v : option value) :
  ¬ Joi.fails key (Joi.ANumber n) v
  ↔ (v = None ∧ Joi.n_required n = false)
    ∨ ∃ q, v ≫= Joi.to_number = Some q
           ∧ Forall (λ r, Joi.number_rule key r q = None) (Joi.n_tests n).
Proof.
  rewrite not_fails. destruct v as [v|]; simpl.
  - unfold Joi.validate_number.
    destruct (Joi.to_number v) as [q|]; simpl.
    + rewrite run_tests_passes. split.
      * intros Hall. right. by eexists.
      * by intros [[? _]|(? & [= <-] & ?)].
    + split; [done|]. by intros [[? _]|(? & ? & _)].
  - destruct (Joi.n_required n); simpl.
    + split; [done|]. by intros [[_ ?]|(? & ? & _)].
    + split; [by left|done].
Qed.

(** The loop reports nothing when no child fails. *)
Lemma validate_children_clean (cs : list (string * Joi.AnySchema))
    (target : Payload) :
  NoDup cs.*1 →
  (∀ key s, (key, s) ∈ cs → ¬ Joi.fails key s (target !! key)) →
  (Joi.validate_children false cs target).1.1 = [].
Proof.
  revert target. induction cs as [|[k s] rest IH]; intros target Hnd Hall;
    [done|].
  rewrite fmap_cons, NoDup_cons in Hnd. destruct Hnd as [Hk Hnd].
  rewrite validate_children_cons. simpl.
  assert ((Joi.validate_any false k s (target !! k)).1 = []) as ->.
  { apply not_fails, Hall. by left. }
  apply IH; [done|]. intros key s' Hin.
  assert (k ≠ key) as Hne.
  { intros ->. apply Hk. apply list_elem_of_fmap. by exists (key, s'). }
  rewrite settle_lookup_ne by done. apply Hall. by right.
Qed.

(** After a run without errors every child's key holds the value its
    validation gave. *)
Lemma validate_children_values (abort : bool)
    (cs : list (string * Joi.AnySchema)) (target target' : Payload)
    (stop : bool) (key : string) (s : Joi.AnySchema) :
  NoDup cs.*1 →
  Joi.validate_children abort cs target = ([], target', stop) →
  (key, s) ∈ cs →
  target' !! key = (Joi.validate_any abort key s (target !! key)).2.
Proof.
  revert target. induction cs as [|[k s0] rest IH]; intros target Hnd Hrun Hin.
  { by apply elem_of_nil in Hin. }
  rewrite fmap_cons, NoDup_cons in Hnd. destruct Hnd as [Hk Hnd].
  rewrite validate_children_cons in Hrun. simpl in Hrun.
  destruct (Joi.validate_any abort k s0 (target !! k)).1 eqn:Herr.
  - apply elem_of_cons in Hin as [[= -> ->]|Hin].
    + pose proof (validate_children_frame abort rest
                    (Joi.settle k
                       (Joi.validate_any abort k s0 (target !! k)).2 target)
                    k Hk) as Hframe.
      rewrite Hrun in Hframe. simpl in Hframe.
      by rewrite Hframe, settle_lookup.
    + assert (k ≠ key) as Hne.
      { intros ->. apply Hk. apply list_elem_of_fmap. by exists (key, s). }
      rewrite (IH _ Hnd Hrun Hin). by rewrite settle_lookup_ne.
  - destruct abort; [done|].
    by destruct (Joi.validate_children false rest target) as [[? ?] ?].
Qed.

(** What a resolved validation says about the run of the engine. *)
Lemma createValidator_fulfilled (schema : Joi.ObjectSchema)
    (payload validated : Payload) :
  createValidator schema payload = Fulfilled validated
  ↔ ∃ stop,
      Joi.validate_children false (Joi.children schema) payload
      = ([], validated, stop)
      ∧ Joi.unprocessed (Joi.children schema) payload = [].
Proof.
  unfold createValidator. simpl. rewrite validate_collecting. simpl.
  destruct (Joi.validate_children false (Joi.children schema) payload)
    as [[errors target] stop].
  simpl. split.
  - intros Hrun. destruct (errors ++ _) eqn:Happ in Hrun; [|done].
    injection Hrun as ->. apply app_nil in Happ as [-> Hunknown].
    apply fmap_nil_inv in Hunknown. by exists stop.
  - intros (stop' & [= -> -> _] & ->). done.
Qed.

Lemma createValidator_accepts (schema : Joi.ObjectSchema)
    (payload : Payload) :
  (∃ validated, createValidator schema payload = Fulfilled validated)
  ↔ (∀ key s, (key, s) ∈ Joi.children schema →
              ¬ Joi.fails key s (payload !! key))
    ∧ (∀ key, is_Some (payload !! key) → key ∈ (Joi.children schema).*1).
Proof.
  split.
  - intros [validated Hv]. split.
    + intros key s Hin Hf.
      destruct (createValidator_reports schema payload key s Hin Hf)
        as (errors & Hrun & _).
      by rewrite Hv in Hrun.
    + apply createValidator_fulfilled in Hv as (stop & _ & Hunknown).
      by apply unprocessed_nil.
  - intros [Hall Hkeys].
    pose proof (validate_children_clean _ payload
                  (Joi.children_distinct schema) Hall) as Hclean.
    destruct (Joi.validate_children false (Joi.children schema) payload)
      as [[errors target] stop] eqn:Hrun.
    simpl in Hclean. subst errors. exists target.
    apply createValidator_fulfilled. exists stop. split; [done|].
    by apply unprocessed_nil.
Qed.

Lemma createValidator_values (schema : Joi.ObjectSchema)
    (payload validated : Payload) (key : string) :
  createValidator schema payload = Fulfilled validated →
  (∀ s, (key, Joi.AString s) ∈ Joi.children schema →
        validated !! key = payload !! key)
  ∧ (∀ n, (key, Joi.ANumber n) ∈ Joi.children schema →
          validated !! key = VNum <$> (payload !! key ≫= Joi.to_number))
  ∧ (key ∉ (Joi.children schema).*1 →
     validated !! key = None ∧ payload !! key = None).
Proof.
  intros Hv.
  pose proof (proj1 (createValidator_accepts schema payload)
                (ex_intro _ validated Hv)) as [Hall Hkeys].
  apply createValidator_fulfilled in Hv as (stop & Hrun & _).
  split; [|split].
  - intros s Hin.
    rewrite (validate_children_values _ _ _ _ _ _ _
               (Joi.children_distinct schema) Hrun Hin).
    destruct (payload !! key) as [v|]; simpl.
    + unfold Joi.validate_string. by repeat case_match.
    + by destruct (Joi.s_required s).
  - intros n Hin.
    rewrite (validate_children_values _ _ _ _ _ _ _
               (Joi.children_distinct schema) Hrun Hin).
    specialize (Hall _ _ Hin). apply not_fails in Hall.
    destruct (payload !! key) as [v|]; simpl in *.
    + unfold Joi.validate_number in *.
      by destruct (Joi.to_number v).
    + by destruct (Joi.n_required n).
  - intros Hout.
    assert (payload !! key = None) as Hnone.
    { destruct (payload !! key) eqn:Hp; [|done].
      destruct Hout. apply Hkeys. by rewrite Hp. }
    split; [|done].
    pose proof (validate_children_frame false (Joi.children schema) payload
                  key Hout) as Hframe.
    rewrite Hrun in Hframe. simpl in Hframe. by rewrite Hframe.
Qed.

(** X10. What normalization does.  In the payload the validator resolves
    with, a string field holds what it held, a number field holds the number
    it held or the number its string reads as, and keys that the schema does
    not name are absent, from the payload too: nothing is added and
    nothing is dropped. *)
Theorem createValidator_normalizes (schema : Joi.ObjectSchema)
    (payload validated : Payload) :
  createValidator schema payload = Fulfilled validated →
  ∀ key,
    (∀ s, (key, Joi.AString s) ∈ Joi.children schema →
          validated !! key = payload !! key)
    ∧ (∀ n, (key, Joi.ANumber n) ∈ Joi.children schema →
            validated !! key = VNum <$> (payload !! key ≫= Joi.to_number))
    ∧ (key ∉ (Joi.children schema).*1 →
       validated !! key = None ∧ payload !! key = None)
    ∧ (is_Some (validated !! key) ↔ is_Some (payload !! key)).
Proof.
  intros Hv key.
  destruct (createValidator_values schema payload validated key Hv)
    as (Hs & Hn & Hout).
  split; [done|]. split; [done|]. split; [done|].
  apply createValidator_fulfilled in Hv as (stop & Hrun & _).
  pose proof (validate_children_keys false (Joi.children schema) payload key)
    as Hkeys.
  by rewrite Hrun in Hkeys.
Qed.

(** X11. The validator resolves exactly when no field of the schema fails
    on the payload and the payload has no key that the schema does not
    name; otherwise it rejects. *)
Theorem createValidator_resolves_iff (schema : Joi.ObjectSchema)
    (payload : Payload) :
  ((∃ validated, createValidator schema payload = Fulfilled validated)
   ↔ (∀ key s, (key, s) ∈ Joi.children schema →
               ¬ Joi.fails key s (payload !! key))
     ∧ (∀ key, is_Some (payload !! key) →
               key ∈ (Joi.children schema).*1))
  ∧ ((∃ err, createValidator schema payload = Rejected err)
     ↔ ¬ ∃ validated, createValidator schema payload = Fulfilled validated).
Proof.
  split; [apply createValidator_accepts|].
  destruct (createValidator schema payload) as [validated|err]; split.
  - by intros [? ?].
  - intros Hn. destruct Hn. by exists validated.
  - by intros _ [? ?].
  - intros _. by exists err.
Qed.

End Acceptance.

(** ** What the two schemas accept *)

Section Schemas.
Context {runtime : JsRuntime}.

Lemma createProductSchema_fulfilled (payload validated : Payload) :
  createValidator createProductSchema payload = Fulfilled validated →
  ∃ d q,
    payload !! "description" = Some (VStr d) ∧ d ≠ ""
    ∧ payload !! "price" ≫= Joi.to_number = Some q
    ∧ Qle_bool (1 # 100) q = true
    ∧ validated = <["price" := VNum q]> payload.
Proof.
  intros Hv.
  pose proof (proj1 (createValidator_accepts createProductSchema payload)
                (ex_intro _ validated Hv)) as [Hall _].
  pose proof (Hall "description" _ ltac:(by left)) as Hd.
  pose proof (Hall "price" _ ltac:(right; by left)) as Hp.
  apply string_field_passes in Hd as [[_ ?]|(d & Hd & Hne & _)]; [done|].
  apply number_field_passes in Hp as [[_ ?]|(q & Hq & Hmin)]; [done|].
  unfold priceSchema in Hmin. simpl in Hmin.
  rewrite Forall_singleton in Hmin. simpl in Hmin.
  exists d, q. repeat split; try done.
  { by destruct (Qle_bool (1 # 100) q). }
  apply map_eq. intros key.
  destruct (createValidator_values createProductSchema payload validated key
              Hv) as (Hs & Hn & Hout).
  destruct (decide (key = "price")) as [->|Hprice].
  { rewrite lookup_insert_eq, (Hn _ ltac:(right; by left)). by rewrite Hq. }
  rewrite lookup_insert_ne by done.
  destruct (decide (key = "description")) as [->|Hdesc].
  { apply (Hs _ ltac:(by left)). }
  destruct Hout as [-> ->]; [|done].
  simpl. rewrite !not_elem_of_cons. repeat split; try done.
  apply not_elem_of_nil.
Qed.

(** X12. What the product creation schema accepts.  The validator resolves
    on a payload exactly when [description] is a non-empty string, [price] is
    a number (or a string that reads as one) of at least 0.01, and there is
    no other key; it then resolves with the payload in which [price] is that
    number. *)
Theorem createProductSchema_accepts (payload validated : Payload) :
  createValidator createProductSchema payload = Fulfilled validated
  ↔ ∃ d q,
      payload !! "description" = Some (VStr d) ∧ d ≠ ""
      ∧ payload !! "price" ≫= Joi.to_number = Some q
      ∧ Qle_bool (1 # 100) q = true
      ∧ (∀ key, is_Some (payload !! key) →
                key = "description" ∨ key = "price")
      ∧ validated = <["price" := VNum q]> payload.
Proof.
  split.
  - intros Hv.
    destruct (createProductSchema_fulfilled _ _ Hv)
      as (d & q & Hd & Hne & Hq & Hmin & ->).
    exists d, q. repeat split; try done.
    intros key Hkey.
    pose proof (proj1 (createValidator_accepts createProductSchema payload)
                  (ex_intro _ _ Hv)) as [_ Hkeys].
    specialize (Hkeys key Hkey). simpl in Hkeys.
    rewrite !elem_of_cons, elem_of_nil in Hkeys. tauto.
  - intros (d & q & Hd & Hne & Hq & Hmin & Hkeys & ->).
    destruct (proj2 (createValidator_accepts createProductSchema payload))
      as [validated Hv].
    { split.
      - intros key s Hin. simpl in Hin.
        rewrite !elem_of_cons, elem_of_nil in Hin.
        destruct Hin as [Heq|[Heq|[]]]; simplify_eq.
        + apply string_field_passes. right. exists d.
          repeat split; try done; constructor.
        + apply number_field_passes. right. exists q. split; [done|].
          unfold priceSchema. simpl. apply Forall_singleton. simpl.
          by rewrite Hmin.
      - intros key Hkey. simpl. rewrite !elem_of_cons.
        destruct (Hkeys key Hkey) as [->| ->]; tauto. }
    destruct (createProductSchema_fulfilled _ _ Hv)
      as (d' & q' & _ & _ & Hq' & _ & ->).
    rewrite Hq in Hq'. by injection Hq' as <-.
Qed.

Lemma createUserSchema_fulfilled (payload validated : Payload) :
  createValidator createUserSchema payload = Fulfilled validated →
  validated = payload.
Proof.
  intros Hv. apply map_eq. intros key.
  destruct (createValidator_values createUserSchema payload validated key Hv)
    as (Hs & _ & Hout).
  destruct (decide (key = "email")) as [->|Hemail].
  { apply (Hs _ ltac:(by left)). }
  destruct (decide (key = "name")) as [->|Hname].
  { apply (Hs _ ltac:(right; by left)). }
  destruct (decide (key = "password")) as [->|Hpassword].
  { apply (Hs _ ltac:(right; right; by left)). }
  destruct Hout as [-> ->]; [|done].
  simpl. rewrite !not_elem_of_cons. repeat split; try done.
  apply not_elem_of_nil.
Qed.

(** X13. What the signup schema accepts.  The validator resolves exactly
    when each of [email], [name] and [password] is absent or a non-empty
    string, the e-mail passing the address test and the password having at
    least 7 characters, all of them letters or digits, and there is no other
    key; it resolves with the payload itself. *)
Theorem createUserSchema_accepts (payload validated : Payload) :
  createValidator createUserSchema payload = Fulfilled validated
  ↔ validated = payload
    ∧ (payload !! "email" = None
       ∨ ∃ e, payload !! "email" = Some (VStr e) ∧ e ≠ ""
              ∧ isEmail e = true)
    ∧ (payload !! "name" = None
       ∨ ∃ n, payload !! "name" = Some (VStr n) ∧ n ≠ "")
    ∧ (payload !! "password" = None
       ∨ ∃ p, payload !! "password" = Some (VStr p)
              ∧ (7 ≤ String.length p)%nat
              ∧ Joi.matches_alphanum p = true)
    ∧ (∀ key, is_Some (payload !! key) →
              key ∈ ["email"; "name"; "password"]).
Proof.
  split.
  - intros Hv. split; [by apply createUserSchema_fulfilled|].
    pose proof (proj1 (createValidator_accepts createUserSchema payload)
                  (ex_intro _ validated Hv)) as [Hall Hkeys].
    pose proof (Hall "email" _ ltac:(by left)) as He.
    pose proof (Hall "name" _ ltac:(right; by left)) as Hn.
    pose proof (Hall "password" _ ltac:(right; right; by left)) as Hp.
    apply string_field_passes in He, Hn, Hp.
    repeat split; [| | |done].
    + destruct He as [[? _]|(e & ? & ? & Hrules)]; [by left|right].
      simpl in Hrules. rewrite Forall_singleton in Hrules. simpl in Hrules.
      exists e. repeat split; try done. by destruct (isEmail e).
    + destruct Hn as [[? _]|(n & ? & ? & _)]; [by left|right]. by exists n.
    + destruct Hp as [[? _]|(p & ? & ? & Hrules)]; [by left|right].
      simpl in Hrules. apply Forall_cons in Hrules as [Hmin Hrules].
      rewrite Forall_singleton in Hrules.
      unfold Joi.string_rule in Hmin, Hrules.
      exists p. repeat split; try done.
      * by destruct (Nat.leb_spec 7 (String.length p)).
      * by destruct (Joi.matches_alphanum p).
  - intros (-> & He & Hn & Hp & Hkeys).
    destruct (proj2 (createValidator_accepts createUserSchema payload))
      as [validated Hv]; [|by rewrite Hv, (createUserSchema_fulfilled _ _ Hv)].
    split; [|done].
    intros key s Hin. simpl in Hin. rewrite !elem_of_cons, elem_of_nil in Hin.
    destruct Hin as [Heq|[Heq|[Heq|[]]]]; simplify_eq;
      apply string_field_passes.
    + destruct He as [?|(e & ? & ? & Hok)]; [by left|right].
      exists e. repeat split; try done.
      simpl. apply Forall_singleton. simpl. by rewrite Hok.
    + destruct Hn as [?|(n & ? & ?)]; [by left|right].
      exists n. repeat split; try done; constructor.
    + destruct Hp as [?|(p & ? & Hlen & Hok)]; [by left|right].
      exists p. repeat split; try done.
      * intros ->. simpl in Hlen. lia.
      * simpl. repeat constructor; unfold Joi.string_rule.
        -- by destruct (Nat.leb_spec 7 (String.length p)); [|lia].
        -- by rewrite Hok.
Qed.

End Schemas.

(** ** The error handler run again, and a signup that succeeds *)

(** X14. The write of the handler is idempotent.  When the same error object
    is handled a second time, the second response has the status of the
    first, and the store is what the first run left: once handled, an error
    keeps its status code. *)
Theorem handleErrors_twice (next next' : Next) (w : World) (ref : nat)
    (e : ErrorObj) :
  heap w !! ref = Some e →
  ∃ w1 w2 code,
    handleErrors (Some ref) next w = (Fulfilled (), w1)
    ∧ handleErrors (Some ref) next' w1 = (Fulfilled (), w2)
    ∧ res_statusCode w1 = Some code
    ∧ res_statusCode w2 = Some code
    ∧ res_sent w2
      = res_sent w ++ [SendJson (Some code) (err_message e);
                       SendJson (Some code) (err_message e)]
    ∧ heap w2 = heap w1.
Proof.
  intros Hheap.
  destruct (handleErrors_responds next w ref e Hheap)
    as (w1 & Hrun1 & Href1 & _ & Hstatus1 & Hsent1 & _).
  destruct (handleErrors_responds next' w1 ref _ Href1)
    as (w2 & Hrun2 & Href2 & Hother2 & Hstatus2 & Hsent2 & _).
  assert (∃ code,
            err_statusCode
              (if falsy (err_statusCode e) then set_statusCode 500 e else e)
            = Some code
            ∧ falsy (Some code) = false) as (code & Hcode & Htruthy).
  { destruct (falsy (err_statusCode e)) eqn:Hfalsy; [by exists 500%Z|].
    destruct (err_statusCode e) as [code|]; [by exists code|done]. }
  assert (err_message
            (if falsy (err_statusCode e) then set_statusCode 500 e else e)
          = err_message e) as Hmessage.
  { by destruct (falsy (err_statusCode e)). }
  rewrite Hcode in Hstatus1, Hsent1, Href2, Hstatus2, Hsent2.
  rewrite Htruthy in Href2, Hstatus2, Hsent2.
  rewrite Hcode in Hstatus2, Hsent2. rewrite Hmessage in Hsent2.
  exists w1, w2, code. repeat split; try done.
  - by rewrite Hsent2, Hsent1, <-(assoc_L (++)).
  - apply map_eq. intros other.
    destruct (decide (other = ref)) as [->|Hne]; [|by apply Hother2].
    by rewrite Href2, Href1.
Qed.

Section ApplicationSuccess.
Context {runtime : JsRuntime}.

(** X15. A valid signup, from the POST to the page that confirms it.
    Whatever the session held, the POST ends with a redirect to /signup, with
    exactly "woohoo" under "messageSuccess" and nothing under
    "validationFailure"; on the next request of the session the bridge
    hands "woohoo" to the view, with no validation failure beside it. *)
Theorem app_post_signup_shows_success (final : Next) (w : World)
    (validated : Payload) :
  createValidator createUserSchema (req_body w) = Fulfilled validated →
  ∃ w1,
    app_post_signup final w = (Fulfilled (), w1)
    ∧ res_sent w1 = res_sent w ++ [Redirected "/signup"]
    ∧ session_flash w1 !! "messageSuccess" = Some ["woohoo"]
    ∧ session_flash w1 !! "validationFailure" = None
    ∧ ∀ (later : World) (next : Next),
        session_flash later = session_flash w1 →
        ∃ later',
          flashMessageInViews next later = (Fulfilled (), next None later')
          ∧ res_locals later' !! "messageSuccess" = Some ["woohoo"]
          ∧ res_locals later' !! "validationFailure" = Some [].
Proof.
  intros Hv. eexists. split.
  { unfold app_post_signup, flashMessageInViews, mbind, M_bind, call. simpl.
    unfold started, post_signup.
    rewrite (validateForm_fulfilled _ _ _ _ validated) by done.
    reflexivity. }
  simpl. split; [done|]. split; [by map_lookups|]. split; [by map_lookups|].
  intros later next Hsession.
  destruct (flashMessageInViews_run next later)
    as (later' & Hrun & _ & _ & _ & Hlocals).
  exists later'. split; [done|].
  rewrite !Hlocals by repeat constructor. rewrite Hsession.
  split; by map_lookups.
Qed.

End ApplicationSuccess.

(** * Executions on concrete requests *)

#[local] Existing Instance Decimal.runtime.

Lemma validateMiddleware_continues_witness :
  validateMiddleware createProductSchema Examples.traced
    (Examples.request Examples.red_book)
  = (Fulfilled (),
     Examples.traced None
       (with_req_body
          (list_to_map [("description", VStr "red book");
                        ("price", VNum (125 # 10))])
          (Examples.request Examples.red_book)))
  ∧ validateMiddleware createProductSchema Examples.traced
      (Examples.request Examples.cheap_book)
    = (Fulfilled (),
       Examples.traced
         (Some (Joi.ValidationError
                  [Joi.ChildError "price"
                     [Joi.item "price"
                        " must be larger than or equal to 0.01"
                        "number.min"]]))
         (Examples.request Examples.cheap_book)).
Proof.
  split.
  - apply (validateMiddleware_continues createProductSchema Examples.traced
             (Examples.request Examples.red_book)).
    vm_compute. reflexivity.
  - apply (validateMiddleware_continues createProductSchema Examples.traced
             (Examples.request Examples.cheap_book)).
    vm_compute. reflexivity.
Defined.

Lemma validateForm_flashes_and_redirects_witness :
  ∃ w',
    validateForm createUserSchema "/signup" Examples.traced
      (Examples.request Examples.bad_signup) = (Fulfilled (), w')
    ∧ session_flash w' !! "validationFailure"
      = Some (message <$>
                [Joi.item "email" " must be a valid email" "string.email";
                 Joi.item "password"
                   " length must be at least 7 characters long" "string.min";
                 Joi.item "password"
                   " must only contain alpha-numeric characters"
                   "string.alphanum"])
    ∧ res_sent w' = [Redirected "/signup"].
Proof.
  destruct (validateForm_flashes_and_redirects createUserSchema "/signup"
              Examples.traced (Examples.request Examples.bad_signup)
              (Joi.ValidationError
                 [Joi.ChildError "email"
                    [Joi.item "email" " must be a valid email" "string.email"];
                  Joi.ChildError "password"
                    [Joi.item "password"
                       " length must be at least 7 characters long"
                       "string.min";
                     Joi.item "password"
                       " must only contain alpha-numeric characters"
                       "string.alphanum"]])
              [Joi.item "email" " must be a valid email" "string.email";
               Joi.item "password"
                 " length must be at least 7 characters long" "string.min";
               Joi.item "password"
                 " must only contain alpha-numeric characters"
                 "string.alphanum"])
    as (w' & Hrun & _ & Hflash & Hsent & _).
  - vm_compute. reflexivity.
  - reflexivity.
  - exists w'. split; [exact Hrun|]. split; [|exact Hsent].
    apply Hflash. reflexivity.
Defined.

Lemma validateForm_needs_details_witness :
  ∃ thrown,
    validateForm (engine := Examples.broken) () "/signup" Examples.traced
      (Examples.request Examples.bad_signup)
    = (Rejected thrown, Examples.request Examples.bad_signup)
    ∧ err_name thrown = "TypeError".
Proof.
  apply (validateForm_needs_details (engine := Examples.broken) () "/signup"
           Examples.traced (Examples.request Examples.bad_signup)
           {| err_name := "Error"; err_message := Some "boom";
              err_statusCode := None; err_details := None |}).
  - reflexivity.
  - reflexivity.
Defined.

Lemma handleErrors_status_witness :
  (∃ w', handleErrors (Some 0%nat) Examples.traced (Examples.failed None)
         = (Fulfilled (), w')
         ∧ res_statusCode w' = Some 500%Z
         ∧ res_sent w' = [SendJson (Some 500%Z) (Some "boom")])
  ∧ (∃ w', handleErrors (Some 0%nat) Examples.traced
             (Examples.failed (Some 400%Z)) = (Fulfilled (), w')
           ∧ res_statusCode w' = Some 400%Z
           ∧ res_sent w' = [SendJson (Some 400%Z) (Some "boom")])
  ∧ handleErrors None Examples.traced (Examples.failed None)
    = (Fulfilled (), Examples.traced None (Examples.failed None)).
Proof.
  destruct (handleErrors_status Examples.traced (Examples.failed None))
    as (H500 & _ & Hnext).
  destruct (handleErrors_status Examples.traced (Examples.failed (Some 400%Z)))
    as (_ & H400 & _).
  split; [|split].
  - apply (H500 0%nat _ eq_refl eq_refl).
  - apply (H400 0%nat _ 400%Z eq_refl eq_refl). lia.
  - exact Hnext.
Defined.

Lemma handleErrors_assigns_statusCode_witness :
  ∃ w' e' code,
    handleErrors (Some 0%nat) Examples.traced (Examples.failed None)
    = (Fulfilled (), w')
    ∧ heap w' !! 0%nat = Some e'
    ∧ err_statusCode e' = Some code
    ∧ res_statusCode w' = Some code.
Proof.
  destruct (handleErrors_assigns_statusCode Examples.traced
              (Examples.failed None) 0%nat _ eq_refl)
    as (w' & e' & code & Hrun & Href & Hcode & Hstatus & _).
  exists w', e', code. by repeat split.
Defined.

Lemma createValidator_collects_all_witness :
  ∃ err details,
    createValidator createUserSchema (list_to_map Examples.bad_signup)
    = Rejected err
    ∧ err_details err = Some details
    ∧ (∃ failure, failure ∈ details ∧ path failure = ["email"])
    ∧ (∃ failure, failure ∈ details ∧ path failure = ["password"]).
Proof.
  destruct (createValidator_collects_all createUserSchema
              (list_to_map Examples.bad_signup) "email" "password"
              (Joi.AString (Joi.email Joi.string))
              (Joi.AString (Joi.alphanum (Joi.string_min 7 Joi.string))))
    as ((err & details & Hrun & Hdetails & Hall) & _).
  - repeat constructor.
  - repeat constructor.
  - discriminate.
  - unfold Joi.fails. vm_compute. discriminate.
  - unfold Joi.fails. vm_compute. discriminate.
  - exists err, details. split; [exact Hrun|]. split; [exact Hdetails|]. split.
    + apply (Hall "email" (Joi.AString (Joi.email Joi.string))).
      * repeat constructor.
      * unfold Joi.fails. vm_compute. discriminate.
    + apply (Hall "password"
               (Joi.AString (Joi.alphanum (Joi.string_min 7 Joi.string)))).
      * repeat constructor.
      * unfold Joi.fails. vm_compute. discriminate.
Defined.

Lemma createValidator_idempotent_witness :
  createValidator createProductSchema
    (list_to_map [("description", VStr "red book");
                  ("price", VNum (125 # 10))])
  = Fulfilled (list_to_map [("description", VStr "red book");
                            ("price", VNum (125 # 10))]).
Proof.
  apply (createValidator_idempotent createProductSchema
           (list_to_map Examples.red_book)).
  vm_compute. reflexivity.
Defined.

Lemma createValidator_missing_required_witness :
  ∃ err details failure,
    createValidator createProductSchema
      (list_to_map [("description", VStr "red book")]) = Rejected err
    ∧ err_details err = Some details
    ∧ failure ∈ details
    ∧ "price" ∈ path failure
    ∧ type failure = "any.required".
Proof.
  apply (createValidator_missing_required createProductSchema
           (list_to_map [("description", VStr "red book")]) "price"
           (Joi.ANumber (Joi.number_required priceSchema))).
  - repeat constructor.
  - reflexivity.
  - reflexivity.
Defined.

Lemma post_signup_empty_body_witness :
  ∃ w',
    post_signup Examples.traced (Examples.request []) = (Fulfilled (), w')
    ∧ session_flash w' = {[ "messageSuccess" := ["woohoo"] ]}
    ∧ res_sent w' = [Redirected "/signup"].
Proof.
  destruct (post_signup_empty_body Examples.traced (Examples.request []))
    as (_ & _ & Hpost).
  destruct (Hpost eq_refl) as (w' & Hrun & Hflash & _ & Hsent & _).
  exists w'. split; [exact Hrun|]. split; [exact Hflash|exact Hsent].
Defined.

Lemma flashMessageInViews_drains_witness :
  ∃ w',
    flashMessageInViews Examples.traced Examples.pending
    = (Fulfilled (), Examples.traced None w')
    ∧ res_locals w' !! "validationFailure"
      = Some ["too short"; "not an email"]
    ∧ res_locals w' !! "messageSuccess" = Some []
    ∧ session_flash w' !! "validationFailure" = None
    ∧ session_flash w' !! "notice" = Some ["kept"].
Proof.
  destruct (flashMessageInViews_drains Examples.traced Examples.pending)
    as (w' & Hrun & Hin & Hout & _).
  exists w'. split; [exact Hrun|].
  destruct (Hin "validationFailure") as [Hlocals Hflash];
    [repeat constructor|].
  destruct (Hin "messageSuccess") as [Hlocals' _]; [repeat constructor|].
  destruct (Hout "notice") as [_ Hkept].
  { rewrite !not_elem_of_cons. repeat split; [discriminate..|].
    apply not_elem_of_nil. }
  split; [exact Hlocals|]. split; [exact Hlocals'|].
  split; [exact Hflash|exact Hkept].
Defined.

(** ** Executions of the further properties *)

Lemma validateForm_valid_body_witness :
  validateForm createProductSchema "/products" Examples.traced
    (Examples.request Examples.red_book)
  = validateMiddleware createProductSchema Examples.traced
      (Examples.request Examples.red_book).
Proof.
  apply (validateForm_valid_body createProductSchema "/products"
           Examples.traced (Examples.request Examples.red_book)
           (list_to_map [("description", VStr "red book");
                         ("price", VNum (125 # 10))])).
  vm_compute. reflexivity.
Defined.

Lemma signup_create_as_post_signup_witness :
  signup_create Examples.traced (Examples.request Examples.bad_signup)
  = post_signup (λ _ w, w) (Examples.request Examples.bad_signup).
Proof.
  eapply (signup_create_as_post_signup Examples.traced (λ _ w, w)
            (Examples.request Examples.bad_signup)).
  vm_compute. reflexivity.
Defined.

Lemma handleErrors_zero_statusCode_witness :
  ∃ w',
    handleErrors (Some 0%nat) Examples.traced (Examples.failed (Some 0%Z))
    = (Fulfilled (), w')
    ∧ res_statusCode w' = Some 500%Z
    ∧ res_sent w' = [SendJson (Some 500%Z) (Some "boom")].
Proof.
  destruct (handleErrors_zero_statusCode Examples.traced
              (Examples.failed (Some 0%Z)) 0%nat _ eq_refl eq_refl)
    as (w' & Hrun & Hstatus & Hsent & _).
  exists w'. split; [exact Hrun|]. split; [exact Hstatus|exact Hsent].
Defined.

Lemma handleErrors_is_terminal_witness :
  ∃ w' response,
    handleErrors (Some 0%nat) Examples.traced (Examples.failed None)
    = (Fulfilled (), w')
    ∧ handleErrors (Some 0%nat) (λ _ w, w) (Examples.failed None)
      = (Fulfilled (), w')
    ∧ res_sent w' = [response].
Proof.
  destruct (handleErrors_is_terminal Examples.traced (Examples.failed None)
              0%nat _ eq_refl)
    as (w' & response & Hrun & Hsent & _).
  exists w', response. split; [apply Hrun|]. split; [apply Hrun|exact Hsent].
Defined.

Lemma app_post_signup_shows_failures_witness :
  ∃ w1,
    app_post_signup Examples.traced (Scenarios.stale Examples.bad_signup)
    = (Fulfilled (), w1)
    ∧ res_sent w1 = [Redirected "/signup"]
    ∧ session_flash w1 !! "validationFailure"
      = Some (message <$>
                [Joi.item "email" " must be a valid email" "string.email";
                 Joi.item "password"
                   " length must be at least 7 characters long" "string.min";
                 Joi.item "password"
                   " must only contain alpha-numeric characters"
                   "string.alphanum"]).
Proof.
  destruct (app_post_signup_shows_failures Examples.traced
              (Scenarios.stale Examples.bad_signup)
              (Joi.ValidationError
                 [Joi.ChildError "email"
                    [Joi.item "email" " must be a valid email" "string.email"];
                  Joi.ChildError "password"
                    [Joi.item "password"
                       " length must be at least 7 characters long"
                       "string.min";
                     Joi.item "password"
                       " must only contain alpha-numeric characters"
                       "string.alphanum"]]))
    as (details & w1 & Hdetails & Hrun & Hsent & Hflash & _).
  - vm_compute. reflexivity.
  - injection Hdetails as <-.
    exists w1. split; [exact Hrun|]. split; [exact Hsent|exact Hflash].
Defined.

Lemma handleErrors_validation_failure_witness :
  ∃ w',
    handleErrors (Some 0%nat) Examples.traced Scenarios.rejected_book
    = (Fulfilled (), w')
    ∧ res_statusCode w' = Some 500%Z.
Proof.
  destruct (handleErrors_validation_failure createProductSchema
              (list_to_map Examples.cheap_book) Scenarios.price_error
              Examples.traced Scenarios.rejected_book 0%nat)
    as (w' & text & Hrun & _ & Hstatus & _).
  - vm_compute. reflexivity.
  - reflexivity.
  - exists w'. split; [exact Hrun|exact Hstatus].
Defined.

Lemma createValidator_normalizes_witness :
  (list_to_map [("description", VStr "red book");
                ("price", VNum (125 # 10))] : Payload) !! "price"
  = VNum <$> ((list_to_map Examples.red_book : Payload) !! "price"
              ≫= Joi.to_number).
Proof.
  assert (createValidator createProductSchema (list_to_map Examples.red_book)
          = Fulfilled (list_to_map [("description", VStr "red book");
                                    ("price", VNum (125 # 10))])) as Hv.
  { vm_compute. reflexivity. }
  destruct (createValidator_normalizes _ _ _ Hv "price") as (_ & Hn & _).
  apply (Hn (Joi.number_required priceSchema)). repeat constructor.
Defined.

Lemma createProductSchema_accepts_witness :
  createValidator createProductSchema (list_to_map Examples.red_book)
  = Fulfilled (<["price" := VNum (125 # 10)]>
                 (list_to_map Examples.red_book)).
Proof.
  apply createProductSchema_accepts. exists "red book", (125 # 10).
  split; [reflexivity|]. split; [discriminate|]. split; [reflexivity|].
  split; [reflexivity|]. split; [|reflexivity].
  intros key [v Hv].
  apply elem_of_list_to_map_2 in Hv. unfold Examples.red_book in Hv.
  rewrite !elem_of_cons, elem_of_nil in Hv.
  destruct Hv as [[= -> _]|[[= -> _]|[]]]; [by left|by right].
Defined.

Lemma createUserSchema_accepts_witness :
  createValidator createUserSchema (list_to_map Scenarios.good_signup)
  = Fulfilled (list_to_map Scenarios.good_signup).
Proof.
  apply createUserSchema_accepts. split; [reflexivity|].
  split; [right; exists "a@b.com"; by repeat split|].
  split; [right; exists "A"; by repeat split|].
  split.
  { right. exists "longenough1".
    split; [reflexivity|]. split; [simpl; lia|reflexivity]. }
  intros key [v Hv].
  apply elem_of_list_to_map_2 in Hv. unfold Scenarios.good_signup in Hv.
  rewrite !elem_of_cons, elem_of_nil in Hv. rewrite !elem_of_cons.
  destruct Hv as [[= -> _]|[[= -> _]|[[= -> _]|[]]]]; tauto.
Defined.

Lemma handleErrors_twice_witness :
  ∃ w1 w2,
    handleErrors (Some 0%nat) Examples.traced (Examples.failed None)
    = (Fulfilled (), w1)
    ∧ handleErrors (Some 0%nat) Examples.traced w1 = (Fulfilled (), w2)
    ∧ res_statusCode w2 = res_statusCode w1
    ∧ heap w2 = heap w1.
Proof.
  destruct (handleErrors_twice Examples.traced Examples.traced
              (Examples.failed None) 0%nat _ eq_refl)
    as (w1 & w2 & code & Hrun1 & Hrun2 & Hstatus1 & Hstatus2 & _ & Hheap).
  exists w1, w2. split; [exact Hrun1|]. split; [exact Hrun2|].
  split; [by rewrite Hstatus1, Hstatus2|exact Hheap].
Defined.

Lemma app_post_signup_shows_success_witness :
  ∃ w1,
    app_post_signup Examples.traced (Scenarios.stale Scenarios.good_signup)
    = (Fulfilled (), w1)
    ∧ res_sent w1 = [Redirected "/signup"]
    ∧ session_flash w1 !! "messageSuccess" = Some ["woohoo"].
Proof.
  destruct (app_post_signup_shows_success Examples.traced
              (Scenarios.stale Scenarios.good_signup)
              (list_to_map Scenarios.good_signup))
    as (w1 & Hrun & Hsent & Hflash & _).
  - vm_compute. reflexivity.
  - exists w1. split; [exact Hrun|]. split; [exact Hsent|exact Hflash].
Defined.
